(** * Work camera app: naming, sequencing, archiving and settings resolution

    A shallow embedding of the TypeScript sources
    [src/utils/StorageUtils.ts], [src/utils/SettingsStorage.ts],
    [App.tsx] and [src/components/CameraView.tsx], followed by the
    properties of the naming and session-sequencing engine.

    Conventions of the embedding.
    - JavaScript strings are [string], the bytes of their UTF-8 form; the
      operations used by the sources ([replace], [split], [includes],
      [padStart], ...) act on the ASCII characters ['.'], ['-'], ['_'], ['/'],
      digits and the nine characters that are illegal in file names, so a
      multi-byte character of a label is a run of bytes that none of them
      touches. Only [trim] and [parseInt] look at characters beyond ASCII:
      the white space they strip is recognised in its UTF-8 form.
    - JavaScript numbers that count captures are natural numbers ([N]); the
      doubles of the runtime agree with them below 2^53.
    - An awaited call is a function from the world before the call to its
      completion and the world after it; a rejected promise is [Throws]. *)

From Stdlib Require Import Ascii NArith ZArith Decimal Sorted.
From Stdlib Require String DecimalString DecimalN.
From stdpp Require Import base option list gmap strings.

Local Open Scope N_scope.

(** ** The fragment of the JavaScript runtime the sources rely on *)

Module Js.

(** The outcome of evaluating a call: a value, or a thrown exception
    (for an [async] function, a rejected promise). *)
Inductive completion (A : Type) : Type :=
| Returns (a : A)
| Throws.
Arguments Returns {A} a.
Arguments Throws {A}.

(** Numbers as far as the naming code meets them: a count, or [NaN]. *)
Inductive number : Type :=
| Int (n : N)
| NaN.

#[global] Instance number_eq_dec : EqDecision number.
Proof. solve_decision. Defined.

Fixpoint drop (n : nat) (s : string) : string :=
  match n, s with
  | O, _ => s
  | S n', String _ s' => drop n' s'
  | S _, EmptyString => EmptyString
  end.

Fixpoint take (n : nat) (s : string) : string :=
  match n, s with
  | S n', String c s' => String c (take n' s')
  | _, _ => EmptyString
  end.

(** [s.startsWith(p)] *)
Fixpoint startsWith (s p : string) {struct p} : bool :=
  match p with
  | EmptyString => true
  | String a p' =>
      match s with
      | EmptyString => false
      | String b s' => bool_decide (a = b) && startsWith s' p'
      end
  end.

(** [s.endsWith(p)] *)
Definition endsWith (s p : string) : bool :=
  (String.length p <=? String.length s)%nat
  && String.eqb (drop (String.length s - String.length p) s) p.

(** [s.includes(p)] *)
Fixpoint includes (s p : string) : bool :=
  startsWith s p
  || match s with
     | EmptyString => false
     | String _ s' => includes s' p
     end.

(** Whether the character [c] occurs in [s]. *)
Fixpoint has_char (c : ascii) (s : string) : bool :=
  match s with
  | EmptyString => false
  | String x s' => bool_decide (x = c) || has_char c s'
  end.

(** [s.replace(p, r)] for a string pattern [p]: only the first occurrence
    is replaced. (The replacement strings of the sources contain no ['$'].) *)
Fixpoint replace (s p r : string) : string :=
  if startsWith s p then r +:+ drop (String.length p) s
  else match s with
       | EmptyString => EmptyString
       | String c s' => String c (replace s' p r)
       end.

(** [s.split(sep)] for a separator of one character. *)
Fixpoint split (s : string) (sep : ascii) : list string :=
  match s with
  | EmptyString => [EmptyString]
  | String c s' =>
      if Ascii.eqb c sep then EmptyString :: split s' sep
      else match split s' sep with
           | h :: t => String c h :: t
           | [] => [String c EmptyString]
           end
  end.

(** [l.join(sep)] *)
Definition join (l : list string) (sep : string) : string :=
  String.concat sep l.

(** [l.pop()]: the last element ([None] is [undefined]) and the array
    that is left. *)
Definition pop {A} (l : list A) : option A * list A :=
  (last l, removelast l).

(** [s.slice(0, -n)] *)
Definition slice_to_end_minus (s : string) (n : nat) : string :=
  take (String.length s - n) s.

(** [s.substring(i, j)] for [i <= j] *)
Definition substring (s : string) (i j : nat) : string :=
  take (j - i) (drop i s).

Fixpoint filter_chars (f : ascii -> bool) (s : string) : string :=
  match s with
  | EmptyString => EmptyString
  | String c s' => if f c then String c (filter_chars f s') else filter_chars f s'
  end.

Definition map_chars (f : ascii -> ascii) : string -> string :=
  fix go s :=
    match s with
    | EmptyString => EmptyString
    | String c s' => String (f c) (go s')
    end.

Definition lower_char (c : ascii) : ascii :=
  let n := N_of_ascii c in
  if (65 <=? n) && (n <=? 90) then ascii_of_N (n + 32) else c.

Definition upper_char (c : ascii) : ascii :=
  let n := N_of_ascii c in
  if (97 <=? n) && (n <=? 122) then ascii_of_N (n - 32) else c.

(** [s.toLowerCase()] and [s.toUpperCase()], for the letters of ASCII. *)
Definition toLowerCase : string -> string := map_chars lower_char.
Definition toUpperCase : string -> string := map_chars upper_char.

(** The white space of [trim] and [parseInt]: the characters WhiteSpace and
    LineTerminator of ECMAScript, by the bytes of their UTF-8 form. One
    byte: U+0009 to U+000D and the space U+0020. *)
Definition is_space1 (a : ascii) : bool :=
  let x := N_of_ascii a in
  (9 <=? x) && (x <=? 13) || (x =? 32).

(** Two bytes: the no-break space U+00A0. *)
Definition is_space2 (a b : ascii) : bool :=
  (N_of_ascii a =? 194) && (N_of_ascii b =? 160).

(** Three bytes: U+1680, U+2000 to U+200A, U+2028, U+2029, U+202F, U+205F,
    U+3000 and the byte order mark U+FEFF. *)
Definition is_space3 (a b c : ascii) : bool :=
  let x := N_of_ascii a in
  let y := N_of_ascii b in
  let z := N_of_ascii c in
  (x =? 225) && (y =? 154) && (z =? 128)
  || (x =? 226) && (y =? 128)
     && ((128 <=? z) && (z <=? 138) || (z =? 168) || (z =? 169) || (z =? 175))
  || (x =? 226) && (y =? 129) && (z =? 159)
  || (x =? 227) && (y =? 128) && (z =? 128)
  || (x =? 239) && (y =? 187) && (z =? 191).

(** [s.trimStart()] *)
Fixpoint trimStart (s : string) : string :=
  match s with
  | String a s1 =>
      if is_space1 a then trimStart s1
      else match s1 with
           | String b s2 =>
               if is_space2 a b then trimStart s2
               else match s2 with
                    | String c s3 => if is_space3 a b c then trimStart s3 else s
                    | EmptyString => s
                    end
           | EmptyString => s
           end
  | EmptyString => EmptyString
  end.

(** [trimStart] on a string that is read from its end: the bytes of a
    character come last byte first. *)
Fixpoint trimStart_reversed (s : string) : string :=
  match s with
  | String a s1 =>
      if is_space1 a then trimStart_reversed s1
      else match s1 with
           | String b s2 =>
               if is_space2 b a then trimStart_reversed s2
               else match s2 with
                    | String c s3 =>
                        if is_space3 c b a then trimStart_reversed s3 else s
                    | EmptyString => s
                    end
           | EmptyString => s
           end
  | EmptyString => EmptyString
  end.

(** [s.trimEnd()] *)
Definition trimEnd (s : string) : string :=
  String.rev (trimStart_reversed (String.rev s)).

(** [s.trim()] *)
Definition trim (s : string) : string := trimEnd (trimStart s).

Fixpoint repeat_char (c : ascii) (n : nat) : string :=
  match n with
  | O => EmptyString
  | S n' => String c (repeat_char c n')
  end.

(** [s.padStart(n, c)] with a filler of one character. *)
Definition padStart (s : string) (n : nat) (c : ascii) : string :=
  repeat_char c (n - String.length s) +:+ s.

Definition is_digit (c : ascii) : bool :=
  let n := N_of_ascii c in (48 <=? n) && (n <=? 57).

Fixpoint all_digits (s : string) : bool :=
  match s with
  | EmptyString => true
  | String c s' => is_digit c && all_digits s'
  end.

(** The regular expression test [/^\d+$/.test(s)]. *)
Definition test_digits (s : string) : bool :=
  match s with
  | EmptyString => false
  | _ => all_digits s
  end.

(** [n.toString()] and [String(n)] of a count: its decimal digits. *)
Definition N_toString (n : N) : string :=
  DecimalString.NilEmpty.string_of_uint (N.to_uint n).

(** The value of a string of decimal digits. *)
Definition digits_value (s : string) : option N :=
  N.of_uint <$> DecimalString.NilEmpty.uint_of_string s.

(** [Number(s)]: a string of digits is its decimal value and the empty
    string is 0. Every other string is taken to [NaN]. (JavaScript reads a
    few more literal forms as numbers: blanks around the digits, a sign, a
    fraction, an exponent, a radix prefix, [Infinity]. No property below
    rests on the value of such a token.) *)
Definition Number (s : string) : number :=
  if test_digits s then from_option Int NaN (digits_value s)
  else if String.eqb s EmptyString then Int 0
  else NaN.

(** [String(x)], as in a template literal. *)
Definition toString (x : number) : string :=
  match x with
  | Int n => N_toString n
  | NaN => "NaN"
  end.

Fixpoint take_digits (s : string) : string :=
  match s with
  | String c s' => if is_digit c then String c (take_digits s') else EmptyString
  | EmptyString => EmptyString
  end.

(** [parseInt(s, 10)]: white space is skipped, a sign is read, then the
    longest run of digits; [None] is [NaN]. *)
Definition parseInt (s : string) : option Z :=
  let t := trimStart s in
  let '(neg, body) :=
    match t with
    | String "-" r => (true, r)
    | String "+" r => (false, r)
    | _ => (false, t)
    end in
  match take_digits body with
  | EmptyString => None
  | ds => (fun n => if neg then (- Z.of_N n)%Z else Z.of_N n) <$> digits_value ds
  end.

End Js.

(** ** [src/utils/StorageUtils.ts]: the naming codec *)

Module NamingCodec.
Import Js.

Definition is_illegal (c : ascii) : bool :=
  bool_decide (c ∈ ["\"; "/"; ":"; "*"; "?"; "034"; "<"; ">"; "|"]%char).

(** The global replacement of the character class of backslash, slash,
    colon, star, question mark, double quote (character 034), angle
    brackets and bar by an underscore. *)
Definition sanitize : string -> string :=
  map_chars (fun c => if is_illegal c then "_"%char else c).

(** [formatFilename(sequence, subSequence?, textLabel?)] *)
Definition formatFilename (sequence : number) (subSequence : option number)
    (textLabel : option string) : string :=
  match textLabel with
  | Some (String _ _ as label) =>
      let sanitized := sanitize label in
      match subSequence with
      | Some sub => sanitized +:+ "-" +:+ toString sub +:+ ".jpg"
      | None => sanitized +:+ ".jpg"
      end
  | _ =>
      let seqStr := padStart (toString sequence) 3 "0" in
      match subSequence with
      | Some sub => seqStr +:+ "-" +:+ toString sub +:+ ".jpg"
      | None => seqStr +:+ ".jpg"
      end
  end.

(** The object [parseFilename] returns; an absent field is [None]. *)
Record ParsedName : Type := mkParsed {
  sequence : option number;
  subSequence : option number;
  textLabel : option string
}.

#[global] Instance ParsedName_eq_dec : EqDecision ParsedName.
Proof. solve_decision. Defined.

(** [parseFilename(filename)] *)
Definition parseFilename (filename : string) : ParsedName :=
  let name := replace (replace filename ".jpg" "") ".mp4" "" in
  if includes name "-" then
    let parts := split name "-" in
    let '(last_part, parts) := pop parts in
    let sub := from_option Number NaN last_part in
    let prefix := join parts "-" in
    if test_digits prefix then
      {| sequence := Some (Number prefix); subSequence := Some sub; textLabel := None |}
    else
      {| sequence := None; subSequence := Some sub; textLabel := Some prefix |}
  else if test_digits name then
    {| sequence := Some (Number name); subSequence := None; textLabel := None |}
  else
    {| sequence := None; subSequence := None; textLabel := Some name |}.

End NamingCodec.


(** ** The file system behind [react-native-fs] *)

Module RNFS.
Import Js.

(** A path names a regular file (its bytes and its modification time, which
    [readDir] may leave undefined) or a directory. *)
Inductive node : Type :=
| File (data : string) (mtime : option Z)
| Directory.

#[global] Instance node_eq_dec : EqDecision node.
Proof. solve_decision. Defined.

(** The device: the nodes by absolute path, the paths on which the system
    refuses [mkdir], [moveFile] and [readDir] (so that the call rejects),
    and the root of the external storage. *)
Record world : Type := World {
  nodes : gmap string node;
  denied : gset string;
  ExternalStorageDirectoryPath : string
}.

Definition with_nodes (w : world) (m : gmap string node) : world :=
  {| nodes := m; denied := denied w;
     ExternalStorageDirectoryPath := ExternalStorageDirectoryPath w |}.

(** [RNFS.exists(path)]; it resolves on every path. *)
Definition exists_ (w : world) (path : string) : bool :=
  bool_decide (is_Some (nodes w !! path)).

(** [RNFS.mkdir(path)]: it resolves as soon as the path exists afterwards. *)
Definition mkdir (w : world) (path : string) : completion unit * world :=
  if bool_decide (path ∈ denied w) then (Throws, w)
  else match nodes w !! path with
       | Some _ => (Returns tt, w)
       | None => (Returns tt, with_nodes w (<[path := Directory]> (nodes w)))
       end.

(** [path] lies below the directory [dir]. *)
Definition below (dir path : string) : bool := startsWith path (dir +:+ "/").

Definition rebase (src dst : string) (entry : string * node) : string * node :=
  (dst +:+ drop (String.length src) entry.1, entry.2).

(** The directory part of a path. *)
Definition parent (path : string) : string :=
  join (removelast (split path "/")) "/".

(** [RNFS.moveFile(src, dst)]: a rename, into a directory that exists. A
    regular file replaces whatever [dst] named; a directory takes the nodes
    below it along. *)
Definition moveFile (w : world) (src dst : string) : completion unit * world :=
  if bool_decide (src ∈ denied w ∨ dst ∈ denied w) then (Throws, w)
  else if negb (bool_decide (nodes w !! parent dst = Some Directory)) then (Throws, w)
  else match nodes w !! src with
       | None => (Throws, w)
       | Some (File data mtime) =>
           (Returns tt, with_nodes w (<[dst := File data mtime]> (delete src (nodes w))))
       | Some Directory =>
           let inside := filter (fun e => below src e.1 = true) (nodes w) in
           let outside := filter (fun e => below src e.1 = false) (delete src (nodes w)) in
           let moved : gmap string node :=
             list_to_map (rebase src dst <$> map_to_list inside) in
           (Returns tt, with_nodes w (<[dst := Directory]> (moved ∪ outside)))
       end.

Record ReadDirItem : Type := mkItem {
  name : string;
  path : string;
  isFile : bool;
  mtime : option Z
}.

Definition child (dir : string) (entry : string * node) : option ReadDirItem :=
  let '(p, n) := entry in
  let nm := drop (String.length dir + 1) p in
  if below dir p && negb (String.eqb nm "") && negb (includes nm "/") then
    Some match n with
         | File _ t => {| name := nm; path := p; isFile := true; mtime := t |}
         | Directory => {| name := nm; path := p; isFile := false; mtime := None |}
         end
  else None.

(** [RNFS.readDir(dir)]: the entries directly below [dir]. *)
Definition readDir (w : world) (dir : string) : completion (list ReadDirItem) :=
  if bool_decide (dir ∈ denied w) then Throws
  else match nodes w !! dir with
       | Some Directory => Returns (omap (child dir) (map_to_list (nodes w)))
       | _ => Throws
       end.

End RNFS.

(** What [new Date()] shows where the sources read it. *)
Record Date : Type := mkDate {
  getFullYear : N;
  getMonth : N;
  getDate : N;
  getHours : N;
  getMinutes : N;
  getSeconds : N;
  getTime : N
}.

(** ** [src/utils/StorageUtils.ts]: files and folders *)

Module StorageUtils.
Import Js RNFS.
Export NamingCodec.

Definition BASE_DIR (w : world) : string :=
  ExternalStorageDirectoryPath w +:+ "/DCIM/WorkPhotos".

(** [getTimestamp()] *)
Definition getTimestamp (now : Date) : string :=
  let YYYY := N_toString (getFullYear now) in
  let MM := padStart (N_toString (getMonth now + 1)) 2 "0" in
  let DD := padStart (N_toString (getDate now)) 2 "0" in
  let HH := padStart (N_toString (getHours now)) 2 "0" in
  let mm := padStart (N_toString (getMinutes now)) 2 "0" in
  let ss := padStart (N_toString (getSeconds now)) 2 "0" in
  YYYY +:+ MM +:+ DD +:+ "_" +:+ HH +:+ mm +:+ ss.

(** The loop of [saveFile]: [counter] and [destPath] are its variables;
    [None] when [fuel] iterations did not reach a free name. *)
Fixpoint saveFile_loop (fuel : nat) (w : world) (folderPath base ext : string)
    (destPath : string) (counter : N) : option string :=
  match fuel with
  | O => None
  | S fuel' =>
      if exists_ w destPath then
        let counter := counter + 1 in
        let finalFilename := base +:+ "_v" +:+ N_toString counter +:+ ext in
        saveFile_loop fuel' w folderPath base ext
          (folderPath +:+ "/" +:+ finalFilename) counter
      else Some destPath
  end.

(** [saveFile(tempPath, folderPath, filename)]. The loop is given more
    iterations than the device has nodes, which is as many as it can take
    ([saveFile_destination] below). *)
Definition saveFile (w : world) (tempPath folderPath filename : string)
    : option (completion string * world) :=
  let ext := if endsWith filename ".mp4" then ".mp4" else ".jpg" in
  let base := slice_to_end_minus filename (String.length ext) in
  destPath ← saveFile_loop (2 + size (nodes w)) w folderPath base ext
               (folderPath +:+ "/" +:+ filename) 1;
  match moveFile w tempPath destPath with
  | (Returns _, w') => Some (Returns destPath, w')
  | (Throws, w') => Some (Throws, w')
  end.

Definition isMedia (f : ReadDirItem) : bool :=
  isFile f &&
  (let name := toLowerCase (name f) in
   endsWith name ".jpg" || endsWith name ".jpeg" || endsWith name ".png"
   || endsWith name ".mp4" || endsWith name ".mov").

Definition mtime_or_0 (f : ReadDirItem) : Z := default 0%Z (mtime f).

(** The stable sort with the comparator
    [(a, b) => (b.mtime?.getTime() || 0) - (a.mtime?.getTime() || 0)]:
    latest first. *)
Fixpoint insert_by_mtime (f : ReadDirItem) (l : list ReadDirItem) : list ReadDirItem :=
  match l with
  | [] => [f]
  | g :: l' =>
      if (mtime_or_0 g <=? mtime_or_0 f)%Z then f :: l
      else g :: insert_by_mtime f l'
  end.

Definition sort_by_mtime (l : list ReadDirItem) : list ReadDirItem :=
  foldr insert_by_mtime [] l.

(** [listPhotos(folderPath)] *)
Definition listPhotos (w : world) (folderPath : string) : list ReadDirItem :=
  match readDir w folderPath with
  | Returns files => sort_by_mtime (filter (fun f => isMedia f = true) files)
  | Throws => []
  end.

(** [archiveExistingFile(folderPath, filename)] at the time [now]: the
    answer and the device afterwards. *)
Definition archiveExistingFile (now : Date) (w : world) (folderPath filename : string)
    : bool * world :=
  let filePath := folderPath +:+ "/" +:+ filename in
  let archivePath := folderPath +:+ "/archive" in
  if exists_ w filePath then
    match (if negb (exists_ w archivePath) then mkdir w archivePath
           else (Returns tt, w)) with
    | (Throws, w1) => (false, w1)
    | (Returns _, w1) =>
        let timestamp := getTime now in
        let archiveFileName :=
          replace filename ".jpg" ("_" +:+ N_toString timestamp +:+ ".jpg") in
        let destPath := archivePath +:+ "/" +:+ archiveFileName in
        match moveFile w1 filePath destPath with
        | (Returns _, w2) => (true, w2)
        | (Throws, w2) => (false, w2)
        end
    end
  else (false, w).

(** [fileExists(folderPath, filename)] *)
Definition fileExists (w : world) (folderPath filename : string) : bool :=
  exists_ w (folderPath +:+ "/" +:+ filename).

(** [formatTimestampFilename(extension)]; [random36] is
    [Math.random().toString(36)]. *)
Definition formatTimestampFilename (now : Date) (random36 : string)
    (extension : string) : string :=
  let timestamp := getTimestamp now in
  let shortId := toUpperCase (substring random36 2 6) in
  let prefix := if String.eqb extension ".jpg" then "IMG" else "VID" in
  prefix +:+ "_" +:+ timestamp +:+ "_" +:+ shortId +:+ extension.

(** The body of the [forEach] of [findHighestSequence]. *)
Definition highest_step (maxSeq : N) (fileName : string) : N :=
  match sequence (parseFilename fileName) with
  | Some (Int n) => if maxSeq <? n then n else maxSeq
  | _ => maxSeq
  end.

(** [findHighestSequence(folderPath)]. ([listPhotos] catches its errors, so
    the [catch] of this function has nothing to receive.) *)
Definition findHighestSequence (w : world) (folderPath : string) : N :=
  let files := listPhotos w folderPath in
  foldl highest_step 0 (name <$> files).

(** The loop of [getUniqueFilename], with [filename] and [counter]. *)
Fixpoint getUniqueFilename_loop (fuel : nat) (w : world) (folderPath base ext : string)
    (filename : string) (counter : N) : option string :=
  match fuel with
  | O => None
  | S fuel' =>
      if exists_ w (folderPath +:+ "/" +:+ filename) then
        let counter := counter + 1 in
        getUniqueFilename_loop fuel' w folderPath base ext
          (base +:+ "_" +:+ N_toString counter +:+ ext) counter
      else Some filename
  end.

(** [getUniqueFilename(folderPath, sequence, subSequence?, textLabel?)]; the
    fuel is enough for the loop to end ([getUniqueFilename_cases] below). *)
Definition getUniqueFilename (w : world) (folderPath : string) (sequence : number)
    (subSequence : option number) (textLabel : option string) : option string :=
  let filename := formatFilename sequence subSequence textLabel in
  let ext := if endsWith filename ".mp4" then ".mp4" else ".jpg" in
  let base := replace filename ext "" in
  getUniqueFilename_loop (2 + size (nodes w)) w folderPath base ext filename 1.

End StorageUtils.


(** ** The key-value store behind [AsyncStorage] *)

Module AsyncStorage.
Import Js.

(** The stored items and the keys whose read is rejected. *)
Record store : Type := Store {
  items : gmap string string;
  unreadable : gset string
}.

(** [AsyncStorage.getItem(key)]; [None] is [null]. *)
Definition getItem (st : store) (key : string) : completion (option string) :=
  if bool_decide (key ∈ unreadable st) then Throws
  else Returns (items st !! key).

End AsyncStorage.

(** ** [src/utils/SettingsStorage.ts] *)

Module SettingsStorage.
Import Js AsyncStorage.

Inductive Mode : Type := default_mode | fixed | lastUsed.
Inductive LabelingMode : Type := single | numbered_group | text_group.
Inductive CaptureMode : Type := photo | video.
Inductive FlashMode : Type := flash_off | flash_on | flash_auto | flash_always.
Inductive CameraPosition : Type := front | back.

Record Folder : Type := mkFolder { name : string; path : string }.

Record Point : Type := mkPoint { x : Z; y : Z }.
Record ShutterPositions : Type := mkShutter { portrait : Point; landscape : Point }.

#[global] Instance Mode_eq_dec : EqDecision Mode.
Proof. solve_decision. Defined.
#[global] Instance LabelingMode_eq_dec : EqDecision LabelingMode.
Proof. solve_decision. Defined.
#[global] Instance Folder_eq_dec : EqDecision Folder.
Proof. solve_decision. Defined.

(** [interface AppSettings]; an optional field that is absent is [None]. *)
Record AppSettings : Type := mkSettings {
  ignoreOrientationLock : bool;
  folderMode : Mode;
  fixedFolder : option Folder;
  shutterPositionMode : Mode;
  fixedShutterPositions : option ShutterPositions;
  labelingModeMode : Mode;
  fixedLabelingMode : option LabelingMode;
  captureMode : Mode;
  fixedCaptureMode : option CaptureMode;
  flashModeMode : Mode;
  fixedFlashMode : option FlashMode;
  cameraModeMode : Mode;
  fixedCameraPosition : option CameraPosition
}.

(** [keyof AppSettings] *)
Module Key.
Inductive t : Type :=
| ignoreOrientationLock
| folderMode | fixedFolder
| shutterPositionMode | fixedShutterPositions
| labelingModeMode | fixedLabelingMode
| captureMode | fixedCaptureMode
| flashModeMode | fixedFlashMode
| cameraModeMode | fixedCameraPosition.
End Key.

(** The values a field of [AppSettings] holds. The type parameter [T] of
    the generic helpers is erased when they run: it is one of these. *)
Inductive value : Type :=
| VBool (b : bool)
| VMode (m : Mode)
| VFolder (f : Folder)
| VShutter (p : ShutterPositions)
| VLabeling (m : LabelingMode)
| VCapture (m : CaptureMode)
| VFlash (m : FlashMode)
| VCamera (p : CameraPosition).

(** [settings[key]]; [None] is [undefined]. *)
Definition get (settings : AppSettings) (key : Key.t) : option value :=
  match key with
  | Key.ignoreOrientationLock => Some (VBool (ignoreOrientationLock settings))
  | Key.folderMode => Some (VMode (folderMode settings))
  | Key.fixedFolder => VFolder <$> fixedFolder settings
  | Key.shutterPositionMode => Some (VMode (shutterPositionMode settings))
  | Key.fixedShutterPositions => VShutter <$> fixedShutterPositions settings
  | Key.labelingModeMode => Some (VMode (labelingModeMode settings))
  | Key.fixedLabelingMode => VLabeling <$> fixedLabelingMode settings
  | Key.captureMode => Some (VMode (captureMode settings))
  | Key.fixedCaptureMode => VCapture <$> fixedCaptureMode settings
  | Key.flashModeMode => Some (VMode (flashModeMode settings))
  | Key.fixedFlashMode => VFlash <$> fixedFlashMode settings
  | Key.cameraModeMode => Some (VMode (cameraModeMode settings))
  | Key.fixedCameraPosition => VCamera <$> fixedCameraPosition settings
  end.

Definition SETTINGS_KEY : string := "@app_settings".
Definition LAST_USED_PREFIX : string := "@last_used_".

(** [getDefaultSettings()] *)
Definition getDefaultSettings : AppSettings :=
  {| ignoreOrientationLock := false;
     folderMode := lastUsed; fixedFolder := None;
     shutterPositionMode := default_mode; fixedShutterPositions := None;
     labelingModeMode := default_mode; fixedLabelingMode := None;
     captureMode := default_mode; fixedCaptureMode := None;
     flashModeMode := default_mode; fixedFlashMode := None;
     cameraModeMode := default_mode; fixedCameraPosition := None |}.

Section Resolver.
(** [JSON.parse] on a stored last-used document: it throws, or yields
    [null] ([None]) or a value. *)
Variable JSON_parse : string -> completion (option value).

(** [getLastUsedState(key)]; [None] is [null]. *)
Definition getLastUsedState (st : store) (key : string) : option value :=
  match getItem st (LAST_USED_PREFIX +:+ key) with
  | Returns (Some (String _ _ as json)) =>
      match JSON_parse json with
      | Returns v => v
      | Throws => None
      end
  | Returns _ => None
  | Throws => None
  end.

(** [getInitialValue(settings, settingKey, fixedKey, lastUsedKey, defaultValue)] *)
Definition getInitialValue (st : store) (settings : AppSettings)
    (settingKey fixedKey : Key.t) (lastUsedKey : string) (defaultValue : value) : value :=
  let mode := get settings settingKey in
  match mode with
  | Some (VMode fixed) =>
      let fixedValue := get settings fixedKey in
      default defaultValue fixedValue
  | Some (VMode lastUsed) =>
      let lastUsed := getLastUsedState st lastUsedKey in
      default defaultValue lastUsed
  | _ => defaultValue
  end.
End Resolver.

End SettingsStorage.

(** ** [App.tsx]: the folder the application starts in *)

Module App.
Import Js RNFS SettingsStorage.

Definition rootFolder (w : world) : Folder :=
  {| name := "WorkPhotos"; path := StorageUtils.BASE_DIR w |}.

(** The part of [setup] that determines the initial folder; [lastFolder] is
    what [getLastFolder()] resolved to. The result is the argument of
    [setCurrentFolder]. *)
Definition setup_folder (w : world) (settings : AppSettings)
    (lastFolder : option Folder) : Folder :=
  let folder :=
    match folderMode settings with
    | fixed =>
        match fixedFolder settings with
        | Some f => if exists_ w (path f) then Some f else None
        | None => None
        end
    | lastUsed => lastFolder
    | default_mode => None
    end in
  match folder with
  | Some f => f
  | None => rootFolder w
  end.

End App.

(** ** [src/components/CameraView.tsx]: the sequencing state and its handlers *)

Module CameraView.
Import Js RNFS StorageUtils SettingsStorage.

(** The [useState] cells that the naming and sequencing handlers read or
    write. (The cells for flash, zoom, focus, recording and the dialogs for
    renaming and for the lens list are read by none of them.) *)
Record State : Type := mkState {
  labelingMode : LabelingMode;
  textLabel : string;
  isEnteringLabel : bool;
  sequence : N;
  subSequence : N;
  lastPhoto : option string;
  retakeTarget : option ParsedName;
  newFolderName : string;
  usedLabels : list string;
  isEditingIndex : bool;
  editSequence : string;
  editSubSequence : string;
  indexWarning : option string
}.

(** The initial values of the cells. *)
Definition initialState : State :=
  {| labelingMode := single; textLabel := ""; isEnteringLabel := false;
     sequence := 1; subSequence := 1; lastPhoto := None; retakeTarget := None;
     newFolderName := ""; usedLabels := []; isEditingIndex := false;
     editSequence := ""; editSubSequence := ""; indexWarning := None |}.

(** The setters [setX(v)] of the cells. *)
Definition setLabelingMode (v : LabelingMode) (s : State) : State :=
  {| labelingMode := v; textLabel := textLabel s; isEnteringLabel := isEnteringLabel s;
     sequence := sequence s; subSequence := subSequence s; lastPhoto := lastPhoto s;
     retakeTarget := retakeTarget s; newFolderName := newFolderName s;
     usedLabels := usedLabels s; isEditingIndex := isEditingIndex s;
     editSequence := editSequence s; editSubSequence := editSubSequence s;
     indexWarning := indexWarning s |}.

Definition setTextLabel (v : string) (s : State) : State :=
  {| labelingMode := labelingMode s; textLabel := v;
     isEnteringLabel := isEnteringLabel s; sequence := sequence s;
     subSequence := subSequence s; lastPhoto := lastPhoto s;
     retakeTarget := retakeTarget s; newFolderName := newFolderName s;
     usedLabels := usedLabels s; isEditingIndex := isEditingIndex s;
     editSequence := editSequence s; editSubSequence := editSubSequence s;
     indexWarning := indexWarning s |}.

Definition setIsEnteringLabel (v : bool) (s : State) : State :=
  {| labelingMode := labelingMode s; textLabel := textLabel s; isEnteringLabel := v;
     sequence := sequence s; subSequence := subSequence s; lastPhoto := lastPhoto s;
     retakeTarget := retakeTarget s; newFolderName := newFolderName s;
     usedLabels := usedLabels s; isEditingIndex := isEditingIndex s;
     editSequence := editSequence s; editSubSequence := editSubSequence s;
     indexWarning := indexWarning s |}.

Definition setSequence (v : N) (s : State) : State :=
  {| labelingMode := labelingMode s; textLabel := textLabel s;
     isEnteringLabel := isEnteringLabel s; sequence := v; subSequence := subSequence s;
     lastPhoto := lastPhoto s; retakeTarget := retakeTarget s;
     newFolderName := newFolderName s; usedLabels := usedLabels s;
     isEditingIndex := isEditingIndex s; editSequence := editSequence s;
     editSubSequence := editSubSequence s; indexWarning := indexWarning s |}.

Definition setSubSequence (v : N) (s : State) : State :=
  {| labelingMode := labelingMode s; textLabel := textLabel s;
     isEnteringLabel := isEnteringLabel s; sequence := sequence s; subSequence := v;
     lastPhoto := lastPhoto s; retakeTarget := retakeTarget s;
     newFolderName := newFolderName s; usedLabels := usedLabels s;
     isEditingIndex := isEditingIndex s; editSequence := editSequence s;
     editSubSequence := editSubSequence s; indexWarning := indexWarning s |}.

Definition setLastPhoto (v : option string) (s : State) : State :=
  {| labelingMode := labelingMode s; textLabel := textLabel s;
     isEnteringLabel := isEnteringLabel s; sequence := sequence s;
     subSequence := subSequence s; lastPhoto := v; retakeTarget := retakeTarget s;
     newFolderName := newFolderName s; usedLabels := usedLabels s;
     isEditingIndex := isEditingIndex s; editSequence := editSequence s;
     editSubSequence := editSubSequence s; indexWarning := indexWarning s |}.

Definition setRetakeTarget (v : option ParsedName) (s : State) : State :=
  {| labelingMode := labelingMode s; textLabel := textLabel s;
     isEnteringLabel := isEnteringLabel s; sequence := sequence s;
     subSequence := subSequence s; lastPhoto := lastPhoto s; retakeTarget := v;
     newFolderName := newFolderName s; usedLabels := usedLabels s;
     isEditingIndex := isEditingIndex s; editSequence := editSequence s;
     editSubSequence := editSubSequence s; indexWarning := indexWarning s |}.

Definition setNewFolderName (v : string) (s : State) : State :=
  {| labelingMode := labelingMode s; textLabel := textLabel s;
     isEnteringLabel := isEnteringLabel s; sequence := sequence s;
     subSequence := subSequence s; lastPhoto := lastPhoto s;
     retakeTarget := retakeTarget s; newFolderName := v; usedLabels := usedLabels s;
     isEditingIndex := isEditingIndex s; editSequence := editSequence s;
     editSubSequence := editSubSequence s; indexWarning := indexWarning s |}.

Definition setUsedLabels (v : list string) (s : State) : State :=
  {| labelingMode := labelingMode s; textLabel := textLabel s;
     isEnteringLabel := isEnteringLabel s; sequence := sequence s;
     subSequence := subSequence s; lastPhoto := lastPhoto s;
     retakeTarget := retakeTarget s; newFolderName := newFolderName s; usedLabels := v;
     isEditingIndex := isEditingIndex s; editSequence := editSequence s;
     editSubSequence := editSubSequence s; indexWarning := indexWarning s |}.

Definition setIsEditingIndex (v : bool) (s : State) : State :=
  {| labelingMode := labelingMode s; textLabel := textLabel s;
     isEnteringLabel := isEnteringLabel s; sequence := sequence s;
     subSequence := subSequence s; lastPhoto := lastPhoto s;
     retakeTarget := retakeTarget s; newFolderName := newFolderName s;
     usedLabels := usedLabels s; isEditingIndex := v; editSequence := editSequence s;
     editSubSequence := editSubSequence s; indexWarning := indexWarning s |}.

Definition setEditSequence (v : string) (s : State) : State :=
  {| labelingMode := labelingMode s; textLabel := textLabel s;
     isEnteringLabel := isEnteringLabel s; sequence := sequence s;
     subSequence := subSequence s; lastPhoto := lastPhoto s;
     retakeTarget := retakeTarget s; newFolderName := newFolderName s;
     usedLabels := usedLabels s; isEditingIndex := isEditingIndex s; editSequence := v;
     editSubSequence := editSubSequence s; indexWarning := indexWarning s |}.

Definition setEditSubSequence (v : string) (s : State) : State :=
  {| labelingMode := labelingMode s; textLabel := textLabel s;
     isEnteringLabel := isEnteringLabel s; sequence := sequence s;
     subSequence := subSequence s; lastPhoto := lastPhoto s;
     retakeTarget := retakeTarget s; newFolderName := newFolderName s;
     usedLabels := usedLabels s; isEditingIndex := isEditingIndex s;
     editSequence := editSequence s; editSubSequence := v;
     indexWarning := indexWarning s |}.

Definition setIndexWarning (v : option string) (s : State) : State :=
  {| labelingMode := labelingMode s; textLabel := textLabel s;
     isEnteringLabel := isEnteringLabel s; sequence := sequence s;
     subSequence := subSequence s; lastPhoto := lastPhoto s;
     retakeTarget := retakeTarget s; newFolderName := newFolderName s;
     usedLabels := usedLabels s; isEditingIndex := isEditingIndex s;
     editSequence := editSequence s; editSubSequence := editSubSequence s;
     indexWarning := v |}.

(** What a call of [takePhoto] meets outside the component: [camera.current]
    ([None] when it is null) with the outcome of its [takePhoto], which is
    the path of the temporary file; the clock and [Math.random().toString(36)]
    for a name in the root folder; the clock when the archive is written. *)
Record Ambient : Type := mkAmbient {
  camera : option (completion string);
  nameDate : Date;
  random36 : string;
  archiveDate : Date
}.

Definition isRoot (w : world) (currentFolder : Folder) : bool :=
  bool_decide (path currentFolder = BASE_DIR w).

(** The three targets that [takePhoto] computes. *)
Definition targetSeq (s : State) : number :=
  match retakeTarget s ≫= NamingCodec.sequence with
  | Some n => n
  | None => Int (sequence s)
  end.

Definition targetSub (s : State) : option number :=
  match retakeTarget s with
  | Some t => NamingCodec.subSequence t
  | None => if decide (labelingMode s ≠ single) then Some (Int (subSequence s)) else None
  end.

Definition targetText (s : State) : option string :=
  match retakeTarget s with
  | Some t => NamingCodec.textLabel t
  | None => if decide (labelingMode s = text_group) then Some (textLabel s) else None
  end.

(** The name [takePhoto] asks for; [None] only if the loop of
    [getUniqueFilename] ran out of fuel. *)
Definition capture_filename (env : Ambient) (currentFolder : Folder) (w : world)
    (s : State) : option string :=
  if isRoot w currentFolder then
    Some (formatTimestampFilename (nameDate env) (random36 env) ".jpg")
  else getUniqueFilename w (path currentFolder) (targetSeq s) (targetSub s) (targetText s).

(** The state after a saved capture. *)
Definition after_capture (savedPath : string) (s : State) : State :=
  let s1 := setLastPhoto (Some savedPath) s in
  match retakeTarget s with
  | Some _ => setRetakeTarget None s1
  | None =>
      if decide (labelingMode s ≠ single) then
        let s2 := setSubSequence (subSequence s1 + 1) s1 in
        if bool_decide (labelingMode s = text_group)
           && negb (bool_decide (textLabel s ∈ usedLabels s))
        then setUsedLabels (usedLabels s2 ++ [textLabel s]) s2
        else s2
      else setSequence (sequence s1 + 1) s1
  end.

(** The awaited calls in the [try] block of [takePhoto] once the camera
    has produced [photo_path]: the name, the archive step of a retake, the
    save. [Throws] is the rejection that the [catch] receives; [None] only
    if a loop ran out of fuel. ([scanMediaFile], which follows the save,
    catches its own errors and changes neither the device nor the cells.) *)
Definition capture_io (env : Ambient) (currentFolder : Folder) (w : world) (s : State)
    (photo_path : string) : option (completion string * world) :=
  filename ← capture_filename env currentFolder w s;
  let w1 :=
    match retakeTarget s with
    | Some _ => (archiveExistingFile (archiveDate env) w (path currentFolder) filename).2
    | None => w
    end in
  saveFile w1 photo_path (path currentFolder) filename.

(** [takePhoto()]: the device and the cells afterwards. An exception
    anywhere in the body is caught and logged, leaving the cells as they
    were. *)
Definition takePhoto (env : Ambient) (currentFolder : Folder) (w : world) (s : State)
    : option (world * State) :=
  match camera env with
  | None => Some (w, s)
  | Some Throws => Some (w, s)
  | Some (Returns photo_path) =>
      saved ← capture_io env currentFolder w s photo_path;
      match saved with
      | (Throws, w2) => Some (w2, s)
      | (Returns savedPath, w2) => Some (w2, after_capture savedPath s)
      end
  end.

(** [nextSequence()] *)
Definition nextSequence (s : State) : State :=
  if decide (labelingMode s = text_group) then
    setIsEnteringLabel true (setNewFolderName (textLabel s) s)
  else setSubSequence 1 (setSequence (sequence s + 1) s).

(** The handler of the labeling-mode button. *)
Definition cycleLabelingMode (s : State) : State :=
  match labelingMode s with
  | single => setLabelingMode numbered_group s
  | numbered_group => setIsEnteringLabel true (setLabelingMode text_group s)
  | text_group => setLabelingMode single s
  end.

(** Cancel in the label dialog: [setIsEnteringLabel(false)]. *)
Definition cancelLabelEntry (s : State) : State := setIsEnteringLabel false s.

(** [retakeLast()] *)
Definition retakeLast (s : State) : State :=
  match lastPhoto s with
  | Some p =>
      let pathParts := split p "/" in
      let filename := default "" (last pathParts) in
      let target := parseFilename filename in
      setRetakeTarget (Some target) s
  | None => s
  end.

(** Tapping the retake label: [setRetakeTarget(null)]. *)
Definition cancelRetake (s : State) : State := setRetakeTarget None s.

(** The effect that runs when the folder changes: [syncSequence()]. *)
Definition syncSequence (currentFolder : Folder) (w : world) (s : State) : State :=
  if isRoot w currentFolder then s
  else
    let highest := findHighestSequence w (path currentFolder) in
    if 0 <? highest then setSubSequence 1 (setSequence (highest + 1) s)
    else setSubSequence 1 (setSequence 1 s).

Record Alert : Type := mkAlert { title : string; message : string }.

Definition dq : string := String "034"%char "".

(** [handleLabelSave()] *)
Definition handleLabelSave (s : State) : State * option Alert :=
  let trimmedLabel := trim (newFolderName s) in
  match trimmedLabel with
  | String _ _ =>
      if bool_decide (trimmedLabel ∈ usedLabels s) then
        (s, Some (mkAlert "Duplicate Label"
               ("The label " +:+ dq +:+ trimmedLabel +:+ dq +:+
                " has already been used in this folder. Please use a different name.")))
      else
        let s1 := setSubSequence 1 (setTextLabel trimmedLabel s) in
        let s2 :=
          if negb (bool_decide (trimmedLabel ∈ usedLabels s))
          then setUsedLabels (usedLabels s ++ [trimmedLabel]) s1
          else s1 in
        (setIsEnteringLabel false s2, None)
  | EmptyString => (setIsEnteringLabel false s, None)
  end.

(** [openIndexEditor()] *)
Definition openIndexEditor (s : State) : State :=
  let s1 :=
    if decide (labelingMode s = text_group) then setEditSequence (textLabel s) s
    else setEditSequence (N_toString (sequence s)) s in
  let s2 :=
    setEditSubSequence
      (if decide (labelingMode s ≠ single) then N_toString (subSequence s) else "") s1 in
  setIsEditingIndex true (setIndexWarning None s2).

(** [onChangeText] of the two inputs of the index editor, and its Cancel. *)
Definition changeEditSequence (text : string) (s : State) : State :=
  let s1 :=
    if decide (labelingMode s = text_group) then setEditSequence text s
    else setEditSequence (filter_chars is_digit text) s in
  setIndexWarning None s1.

Definition changeEditSubSequence (text : string) (s : State) : State :=
  setIndexWarning None (setEditSubSequence (filter_chars is_digit text) s).

Definition cancelIndexEdit (s : State) : State :=
  setIndexWarning None (setIsEditingIndex false s).

(** The first half of [handleIndexSave]: the index that the inputs denote,
    or the alert that rejects them. *)
Definition read_index (s : State) : Alert + (N * string * option N) :=
  match
    (if decide (labelingMode s = text_group) then
       let newTextLabel := trim (editSequence s) in
       match newTextLabel with
       | EmptyString => inl (mkAlert "Invalid Label" "Please enter a valid text label.")
       | _ => inr (sequence s, newTextLabel)
       end
     else
       match parseInt (editSequence s) with
       | Some newSeq =>
           if (newSeq <? 1)%Z then
             inl (mkAlert "Invalid Index"
                    "Please enter a valid sequence number (1 or greater).")
           else inr (Z.to_N newSeq, textLabel s)
       | None =>
           inl (mkAlert "Invalid Index"
                  "Please enter a valid sequence number (1 or greater).")
       end)
  with
  | inl a => inl a
  | inr (newSeq, newTextLabel) =>
      if bool_decide (labelingMode s ≠ single)
         && negb (String.eqb (trim (editSubSequence s)) "")
      then
        match parseInt (editSubSequence s) with
        | Some newSubSeq =>
            if (newSubSeq <? 1)%Z then
              inl (mkAlert "Invalid Sub-Index"
                     "Please enter a valid sub-sequence number (1 or greater).")
            else inr (newSeq, newTextLabel, Some (Z.to_N newSubSeq))
        | None =>
            inl (mkAlert "Invalid Sub-Index"
                   "Please enter a valid sub-sequence number (1 or greater).")
        end
      else inr (newSeq, newTextLabel, None)
  end.

(** The file name [handleIndexSave] checks. *)
Definition index_filename (s : State) (newSeq : N) (newTextLabel : string)
    (newSubSeq : option N) : string :=
  formatFilename (Int newSeq) (Int <$> newSubSeq)
    (if decide (labelingMode s = text_group) then Some newTextLabel else None).

Definition warning_text (filename : string) : string :=
  "File " +:+ dq +:+ replace filename ".jpg" "" +:+ dq +:+
  " already exists. Press " +:+ dq +:+ "Set" +:+ dq +:+ " again to confirm overwrite.".

(** [!indexWarning] *)
Definition noWarning (s : State) : bool :=
  match indexWarning s with
  | Some (String _ _) => false
  | _ => true
  end.

(** The second half of [handleIndexSave]: the cells once the index is set. *)
Definition commit_index (newSeq : N) (newTextLabel : string) (newSubSeq : option N)
    (s : State) : State :=
  let s1 :=
    if decide (labelingMode s = text_group) then
      let s' := setTextLabel newTextLabel s in
      if negb (bool_decide (newTextLabel ∈ usedLabels s))
      then setUsedLabels (usedLabels s ++ [newTextLabel]) s'
      else s'
    else setSequence newSeq s in
  let s2 :=
    if decide (labelingMode s ≠ single) then setSubSequence (default 1 newSubSeq) s1
    else s1 in
  setIndexWarning None (setIsEditingIndex false s2).

(** [handleIndexSave()] *)
Definition handleIndexSave (currentFolder : Folder) (w : world) (s : State)
    : State * option Alert :=
  match read_index s with
  | inl a => (s, Some a)
  | inr (newSeq, newTextLabel, newSubSeq) =>
      let filename := index_filename s newSeq newTextLabel newSubSeq in
      let exists_file := fileExists w (path currentFolder) filename in
      if exists_file && noWarning s then
        (setIndexWarning (Some (warning_text filename)) s, None)
      else (commit_index newSeq newTextLabel newSubSeq s, None)
  end.

(** What the operator does while the index editor is open: typing in one of
    the two inputs, pressing Set, pressing Cancel. *)
Inductive EditorEvent : Type :=
| TypeSequence (text : string)
| TypeSubSequence (text : string)
| PressSet
| PressCancel.

Definition editor_step (currentFolder : Folder) (w : world) (s : State)
    (e : EditorEvent) : State :=
  match e with
  | TypeSequence text => changeEditSequence text s
  | TypeSubSequence text => changeEditSubSequence text s
  | PressSet => (handleIndexSave currentFolder w s).1
  | PressCancel => cancelIndexEdit s
  end.


End CameraView.

(** ** [src/utils/StorageUtils.ts]: session folders *)

Module SessionFolders.
Import Js RNFS StorageUtils SettingsStorage.

(** [initStorage()] *)
Definition initStorage (w : world) : completion unit * world :=
  if negb (exists_ w (BASE_DIR w)) then mkdir w (BASE_DIR w) else (Returns tt, w).

(** The line terminators, which the dot of a regular expression does not
    match: U+000A and U+000D, and U+2028 and U+2029 in their UTF-8 form. *)
Definition has_line_terminator (s : string) : bool :=
  has_char "010" s || has_char "013" s
  || includes s (String "226" (String "128" (String "168" "")))
  || includes s (String "226" (String "128" (String "169" ""))).

(** Whether [s] as a whole matches [_\d{8}_\d{6}]. *)
Definition is_timestamp_suffix (s : string) : bool :=
  (String.length s =? 16)%nat
  && String.eqb (substring s 0 1) "_" && all_digits (substring s 1 9)
  && String.eqb (substring s 9 10) "_" && all_digits (substring s 10 16).

(** [getFolderBaseName(folderName)]. The regular expression of the source,
    a group of any characters followed by [_\d{8}_\d{6}] and anchored at
    both ends, matches when the last 16 characters are a timestamp suffix
    and what stands before them, the group, has no line terminator. *)
Definition getFolderBaseName (folderName : string) : string :=
  let n := String.length folderName in
  let group := take (n - 16) folderName in
  if is_timestamp_suffix (drop (n - 16) folderName) && negb (has_line_terminator group)
  then group else folderName.

(** What the clock shows: a year of four digits, and the other fields in
    the range of the calendar. *)
Definition calendar_date (now : Date) : Prop :=
  1000 ≤ getFullYear now ≤ 9999 ∧ getMonth now ≤ 11 ∧ getDate now ≤ 31 ∧
  getHours now ≤ 23 ∧ getMinutes now ≤ 59 ∧ getSeconds now ≤ 59.

(** [createNewSessionFolder(prefix)] at the time [now]; [None] is the
    argument left out. *)
Definition createNewSessionFolder (now : Date) (w : world) (prefix : option string)
    : completion Folder * world :=
  let prefix := default "Session" prefix in
  let sanitizedPrefix := sanitize prefix in
  let folderName := sanitizedPrefix +:+ "_" +:+ getTimestamp now in
  let folderPath := BASE_DIR w +:+ "/" +:+ folderName in
  match mkdir w folderPath with
  | (Returns _, w') => (Returns {| name := folderName; path := folderPath |}, w')
  | (Throws, w') => (Throws, w')
  end.

(** [renameFolder(oldName, newName)] at the time [now] *)
Definition renameFolder (now : Date) (w : world) (oldName newName : string)
    : completion Folder * world :=
  let oldPath := BASE_DIR w +:+ "/" +:+ oldName in
  let sanitizedNewName := sanitize newName in
  let timestampedName := sanitizedNewName +:+ "_" +:+ getTimestamp now in
  let newPath := BASE_DIR w +:+ "/" +:+ timestampedName in
  match moveFile w oldPath newPath with
  | (Returns _, w') => (Returns {| name := timestampedName; path := newPath |}, w')
  | (Throws, w') => (Throws, w')
  end.

End SessionFolders.

(** ** The session of a camera view: its effects and events *)

Module CameraSession.
Import Js RNFS StorageUtils SettingsStorage CameraView.

(** [labels.add(l)] on a [Set] that is kept in its order of insertion, as
    [Array.from] reads it. *)
Definition Set_add (labels : list string) (l : string) : list string :=
  if bool_decide (l ∈ labels) then labels else labels ++ [l].

(** The effect that runs when the folder changes: the last photo and the
    labels in use. *)
Definition loadFolder (currentFolder : Folder) (w : world) (s : State) : State :=
  let photos := listPhotos w (path currentFolder) in
  match photos with
  | p :: _ =>
      let labels :=
        foldl (fun labels p =>
                 match NamingCodec.textLabel (parseFilename (RNFS.name p)) with
                 | Some (String _ _ as l) => Set_add labels l
                 | _ => labels
                 end) [] photos in
      setUsedLabels labels (setLastPhoto (Some (RNFS.path p)) s)
  | [] => setUsedLabels [] s
  end.

(** [onClose] of the gallery: the last photo is read again. *)
Definition galleryClosed (currentFolder : Folder) (w : world) (s : State) : State :=
  match listPhotos w (path currentFolder) with
  | p :: _ => setLastPhoto (Some (RNFS.path p)) s
  | [] => setLastPhoto None s
  end.

(** What [onRecordingFinished] does to the cells once the video is saved
    as [savedPath]; [captured] is the labeling mode that the callback of
    [toggleRecording] has closed over. *)
Definition recordingSaved (captured : LabelingMode) (savedPath : string) (s : State)
    : State :=
  let s1 := setLastPhoto (Some savedPath) s in
  if decide (captured ≠ single) then setSubSequence (subSequence s1 + 1) s1
  else setSequence (sequence s1 + 1) s1.

(** What happens to the component: its effects, the presses of its
    buttons, the input of its dialogs, and changes of the device that come
    from elsewhere. *)
Inductive Event : Type :=
| FolderLoaded
| SequenceSynced
| ShutterPressed (env : Ambient)
| RecordingSaved (captured : LabelingMode) (savedPath : string)
| NextPressed
| ModePressed
| RetakePressed
| RetakeCancelled
| GalleryRetake (target : ParsedName)
| GalleryClosed
| LabelTyped (text : string)
| LabelSet
| LabelCancelled
| IndexEditorOpened
| IndexEditor (e : EditorEvent)
| DeviceChanged (w' : world).

(** One event in the folder that is current when it happens; [None] only
    if a loop of [takePhoto] ran out of fuel. *)
Definition session_step (st : world * State) (ev : Folder * Event)
    : option (world * State) :=
  let '(w, s) := st in
  let '(currentFolder, e) := ev in
  match e with
  | FolderLoaded => Some (w, loadFolder currentFolder w s)
  | SequenceSynced => Some (w, syncSequence currentFolder w s)
  | ShutterPressed env => takePhoto env currentFolder w s
  | RecordingSaved captured savedPath => Some (w, recordingSaved captured savedPath s)
  | NextPressed => Some (w, nextSequence s)
  | ModePressed => Some (w, cycleLabelingMode s)
  | RetakePressed => Some (w, retakeLast s)
  | RetakeCancelled => Some (w, cancelRetake s)
  | GalleryRetake target => Some (w, setRetakeTarget (Some target) s)
  | GalleryClosed => Some (w, galleryClosed currentFolder w s)
  | LabelTyped text => Some (w, setNewFolderName text s)
  | LabelSet => Some (w, (handleLabelSave s).1)
  | LabelCancelled => Some (w, cancelLabelEntry s)
  | IndexEditorOpened => Some (w, openIndexEditor s)
  | IndexEditor e => Some (w, editor_step currentFolder w s e)
  | DeviceChanged w' => Some (w', s)
  end.

Definition session_run (events : list (Folder * Event)) (st : world * State)
    : option (world * State) :=
  foldl (fun acc ev => acc ≫= fun st => session_step st ev) (Some st) events.

(** The invariant of the cells: a sequence and a sub-sequence from 1 on,
    and no label twice among the used labels. *)
Definition wellformed (s : State) : Prop :=
  1 ≤ sequence s ∧ 1 ≤ subSequence s ∧ NoDup (usedLabels s).

End CameraSession.


Import Js RNFS StorageUtils.

(** * Properties *)

(** ** Strings *)

Section NamingCodecFacts.

Lemma append_cons (c : ascii) (a b : string) : String c a +:+ b = String c (a +:+ b).
Proof. reflexivity. Qed.

Lemma append_nil_l (s : string) : "" +:+ s = s.
Proof. reflexivity. Qed.

Lemma append_nil_r (s : string) : s +:+ "" = s.
Proof. induction s as [|c s IH]; [done|]. by rewrite append_cons, IH. Qed.

Lemma append_assoc (a b c : string) : (a +:+ b) +:+ c = a +:+ (b +:+ c).
Proof. induction a as [|x a IH]; [done|]. by rewrite !append_cons, IH. Qed.

Lemma length_append (a b : string) :
  String.length (a +:+ b) = (String.length a + String.length b)%nat.
Proof. induction a as [|x a IH]; [done|]. rewrite append_cons. cbn. by rewrite IH. Qed.

Lemma append_inj_r (a b e : string) : a +:+ e = b +:+ e → a = b.
Proof.
  revert b. induction a as [|x a IH]; intros [|y b] H.
  - done.
  - apply (f_equal String.length) in H.
    rewrite append_nil_l, append_cons in H. cbn in H. rewrite length_append in H. lia.
  - apply (f_equal String.length) in H.
    rewrite append_nil_l, append_cons in H. cbn in H. rewrite length_append in H. lia.
  - rewrite !append_cons in H. injection H as -> H. f_equal. by apply IH.
Qed.

Lemma drop_append_length (a b : string) : drop (String.length a) (a +:+ b) = b.
Proof. induction a as [|x a IH]; [done|]. by rewrite append_cons. Qed.

Lemma take_append_length (a b : string) : take (String.length a) (a +:+ b) = a.
Proof.
  induction a as [|x a IH]; [by destruct b|]. rewrite append_cons. cbn. by rewrite IH.
Qed.

Lemma startsWith_append (p s : string) : startsWith (p +:+ s) p = true.
Proof.
  induction p as [|x p IH]; [done|]. rewrite append_cons. cbn.
  rewrite bool_decide_eq_true_2 by done. by rewrite IH.
Qed.

Lemma replace_unfold (s p r : string) :
  replace s p r =
  if startsWith s p then r +:+ drop (String.length p) s
  else match s with
       | EmptyString => EmptyString
       | String c s' => String c (replace s' p r)
       end.
Proof. by destruct s. Qed.

(** A string that starts with the pattern: the first occurrence is there. *)
Lemma replace_prefix (p r s : string) : replace (p +:+ s) p r = r +:+ s.
Proof. by rewrite replace_unfold, startsWith_append, drop_append_length. Qed.

(** A string in which the pattern does not occur is left as it is. *)
Lemma replace_absent (p r s : string) : includes s p = false → replace s p r = s.
Proof.
  induction s as [|c s IH]; cbn; intros [H1 H2]%orb_false_iff; rewrite H1; [done|].
  by rewrite IH.
Qed.

Lemma has_char_app c a b : has_char c (a +:+ b) = has_char c a || has_char c b.
Proof.
  induction a as [|x a IH]; [done|]. rewrite append_cons. cbn.
  by rewrite IH, orb_assoc.
Qed.

Lemma includes_char c s : includes s (String c "") = has_char c s.
Proof.
  induction s as [|x s IH]; [done|]. cbn. rewrite IH, andb_true_r.
  f_equal. apply bool_decide_ext. naive_solver.
Qed.

(** A pattern whose first character is missing from the string does not
    occur in it. *)
Lemma includes_first_char c p s : has_char c s = false → includes s (String c p) = false.
Proof.
  induction s as [|x s IH]; [done|]. cbn.
  intros [Hx Hs]%orb_false_iff. apply bool_decide_eq_false in Hx.
  rewrite bool_decide_eq_false_2 by congruence. by apply IH.
Qed.

(** Case analysis on the first four characters of a string, for the
    extensions of four characters. *)
Ltac split_chars s :=
  destruct s as [|? [|? [|? [|? ?]]]];
  rewrite ?append_cons, ?append_nil_l; cbn;
  repeat (case_bool_decide; subst; cbn);
  try done.

(** The extension cannot start inside the stem and end in the extension
    that follows it: its dot is its first character only. *)
Lemma prefix_jpg_app (s : string) :
  s ≠ "" → startsWith s ".jpg" = false → startsWith (s +:+ ".jpg") ".jpg" = false.
Proof. intros Hne. split_chars s. Qed.

Lemma prefix_mp4_app (s : string) :
  s ≠ "" → startsWith s ".mp4" = false → startsWith (s +:+ ".mp4") ".mp4" = false.
Proof. intros Hne. split_chars s. Qed.

(** Removing the first [".jpg"] of [stem.jpg] leaves the stem, unless the
    stem has a [".jpg"] of its own. *)
Lemma replace_jpg_suffix (stem : string) :
  includes stem ".jpg" = false → replace (stem +:+ ".jpg") ".jpg" "" = stem.
Proof.
  induction stem as [|c s IH]; [done|].
  intros H. pose proof H as [H1 H2]%orb_false_iff.
  rewrite replace_unfold, prefix_jpg_app by done.
  rewrite append_cons. f_equal. by apply IH.
Qed.

Lemma replace_mp4_suffix (stem : string) :
  includes stem ".mp4" = false → replace (stem +:+ ".mp4") ".mp4" "" = stem.
Proof.
  induction stem as [|c s IH]; [done|].
  intros H. pose proof H as [H1 H2]%orb_false_iff.
  rewrite replace_unfold, prefix_mp4_app by done.
  rewrite append_cons. f_equal. by apply IH.
Qed.

(** *** Splitting at a character *)

Lemma split_nonempty (s : string) (sep : ascii) : split s sep ≠ [].
Proof.
  destruct s as [|c s]; [done|]. cbn. destruct (Ascii.eqb c sep); [done|].
  by destruct (split s sep).
Qed.

Lemma split_absent (s : string) (sep : ascii) : has_char sep s = false → split s sep = [s].
Proof.
  induction s as [|c s IH]; [done|]. cbn. intros [Hc Hs]%orb_false_iff.
  apply bool_decide_eq_false in Hc.
  destruct (Ascii.eqb_spec c sep) as [->|_]; [done|]. by rewrite IH.
Qed.

Lemma split_app (a b : string) (sep : ascii) :
  split (a +:+ String sep b) sep = split a sep ++ split b sep.
Proof.
  induction a as [|c a IH].
  - rewrite append_nil_l. cbn. by rewrite Ascii.eqb_refl.
  - rewrite append_cons. cbn. rewrite IH. destruct (Ascii.eqb c sep); [done|].
    pose proof (split_nonempty a sep). by destruct (split a sep).
Qed.

Lemma join_split (s : string) (sep : ascii) : join (split s sep) (String sep "") = s.
Proof.
  unfold join. induction s as [|c s IH]; [done|]. cbn.
  pose proof (split_nonempty s sep) as Hne.
  destruct (Ascii.eqb_spec c sep) as [->|_].
  - cbn. destruct (split s sep) as [|h t]; [done|]. by rewrite IH.
  - destruct (split s sep) as [|h [|h' t]]; [done|..]; cbn in *.
    + by rewrite IH.
    + rewrite <- IH. by rewrite append_cons.
Qed.

(** The last ['-'] of [a-b] when [b] has none: [pop] yields [b] and what is
    left joins back to [a]. *)
Lemma pop_split_last (a b : string) (sep : ascii) :
  has_char sep b = false →
  pop (split (a +:+ String sep b) sep) = (Some b, split a sep).
Proof.
  intros Hb. rewrite split_app, (split_absent b) by done. unfold pop.
  by rewrite last_snoc, removelast_last.
Qed.

(** *** Decimal digits *)

Lemma all_digits_app (a b : string) : all_digits (a +:+ b) = all_digits a && all_digits b.
Proof.
  induction a as [|c a IH]; [done|]. rewrite append_cons. cbn.
  by rewrite IH, andb_assoc.
Qed.

Lemma all_digits_has_char (c : ascii) (s : string) :
  is_digit c = false → all_digits s = true → has_char c s = false.
Proof.
  intros Hc. induction s as [|x s IH]; [done|]. cbn.
  intros [Hx Hs]%andb_true_iff. rewrite IH by done.
  rewrite bool_decide_eq_false_2; [done|]. intros ->. congruence.
Qed.

Lemma string_of_uint_digits (d : uint) :
  all_digits (DecimalString.NilEmpty.string_of_uint d) = true.
Proof. induction d; cbn; done. Qed.

Lemma N_toString_digits (n : N) : all_digits (N_toString n) = true.
Proof. apply string_of_uint_digits. Qed.

Lemma digits_value_toString (n : N) : digits_value (N_toString n) = Some n.
Proof.
  unfold digits_value, N_toString.
  rewrite DecimalString.NilEmpty.usu. cbn. f_equal. apply DecimalN.Unsigned.of_to.
Qed.

Lemma N_toString_nonempty (n : N) : N_toString n ≠ "".
Proof.
  intros H. pose proof (digits_value_toString n) as Hv. rewrite H in Hv.
  injection Hv as <-. done.
Qed.

Lemma N_toString_inj (n m : N) : N_toString n = N_toString m → n = m.
Proof.
  intros H. pose proof (digits_value_toString n) as Hn.
  rewrite H, digits_value_toString in Hn. congruence.
Qed.

Lemma test_digits_toString (n : N) : test_digits (N_toString n) = true.
Proof.
  pose proof (N_toString_nonempty n). pose proof (N_toString_digits n).
  unfold test_digits. by destruct (N_toString n).
Qed.

Lemma Number_toString (n : N) : Number (N_toString n) = Int n.
Proof. unfold Number. by rewrite test_digits_toString, digits_value_toString. Qed.

Lemma digits_value_zeros (k : nat) (s : string) :
  digits_value (repeat_char "0" k +:+ s) = digits_value s.
Proof.
  induction k as [|k IH]; [done|]. cbn. rewrite append_cons. unfold digits_value in *.
  cbn. rewrite <- IH.
  by destruct (DecimalString.NilEmpty.uint_of_string (repeat_char "0" k +:+ s)).
Qed.

Lemma all_digits_zeros (k : nat) : all_digits (repeat_char "0" k) = true.
Proof. induction k; done. Qed.

Lemma padStart_digits (n : N) (k : nat) :
  all_digits (padStart (N_toString n) k "0") = true.
Proof.
  unfold padStart. by rewrite all_digits_app, all_digits_zeros, N_toString_digits.
Qed.

Lemma padStart_nonempty (n : N) (k : nat) : padStart (N_toString n) k "0" ≠ "".
Proof.
  unfold padStart. intros H%(f_equal String.length). rewrite length_append in H.
  pose proof (N_toString_nonempty n). destruct (N_toString n); [done|]. cbn in H. lia.
Qed.

Lemma test_digits_padStart (n : N) (k : nat) :
  test_digits (padStart (N_toString n) k "0") = true.
Proof.
  pose proof (padStart_nonempty n k). pose proof (padStart_digits n k).
  unfold test_digits. by destruct (padStart _ _ _).
Qed.

Lemma Number_padStart (n : N) (k : nat) : Number (padStart (N_toString n) k "0") = Int n.
Proof.
  unfold Number. rewrite test_digits_padStart. unfold padStart.
  by rewrite digits_value_zeros, digits_value_toString.
Qed.

Lemma endsWith_app (a b p : string) :
  String.length b = String.length p → endsWith (a +:+ b) p = String.eqb b p.
Proof.
  intros Hlen. unfold endsWith. rewrite length_append, Hlen.
  replace (String.length a + String.length p - String.length p)%nat
    with (String.length a) by lia.
  rewrite drop_append_length.
  replace (String.length p <=? String.length a + String.length p)%nat with true; [done|].
  symmetry. apply Nat.leb_le. lia.
Qed.

Lemma slice_app (a b : string) : slice_to_end_minus (a +:+ b) (String.length b) = a.
Proof.
  unfold slice_to_end_minus. rewrite length_append.
  replace (String.length a + String.length b - String.length b)%nat
    with (String.length a) by lia.
  apply take_append_length.
Qed.

Lemma test_digits_suffixed (stem : string) (c : ascii) (rest : string) :
  is_digit c = false → test_digits (stem +:+ String c rest) = false.
Proof.
  intros Hc. unfold test_digits.
  assert (all_digits (stem +:+ String c rest) = false) as ->.
  { rewrite all_digits_app. cbn. rewrite Hc. by rewrite andb_false_r. }
  by destruct (stem +:+ String c rest).
Qed.

Lemma endsWith_suffix (a b : string) : endsWith (a +:+ b) b = true.
Proof. rewrite endsWith_app by done. apply String.eqb_refl. Qed.

Lemma map_chars_app (f : ascii → ascii) (a b : string) :
  map_chars f (a +:+ b) = map_chars f a +:+ map_chars f b.
Proof.
  induction a as [|c a IH]; [by rewrite !append_nil_l|].
  rewrite append_cons. cbn. fold (map_chars f). by rewrite append_cons, IH.
Qed.

Lemma digits_value_is_Some (s : string) : all_digits s = true → is_Some (digits_value s).
Proof.
  unfold digits_value. intros Hs.
  enough (is_Some (DecimalString.NilEmpty.uint_of_string s)) as [d ->] by by eexists.
  induction s as [|c s IH]; [by eexists|].
  cbn in Hs. apply andb_true_iff in Hs as [Hc Hs]. destruct (IH Hs) as [d Hd].
  cbn. rewrite Hd.
  destruct c as [[] [] [] [] [] [] [] []]; try discriminate Hc; by eexists.
Qed.

(** A run of digits is read as a count, never as [NaN]. *)
Lemma Number_digits (s : string) : test_digits s = true → ∃ n, Number s = Int n.
Proof.
  intros Hs. unfold Number. rewrite Hs.
  destruct (digits_value_is_Some s) as [n ->]; [by destruct s|]. by exists n.
Qed.

(** A token with a character that is no digit is read as [NaN]. *)
Lemma Number_not_digits (a : string) (c : ascii) (b : string) :
  is_digit c = false → Number (a +:+ String c b) = NaN.
Proof.
  intros Hc. unfold Number. rewrite test_digits_suffixed by done.
  by destruct a.
Qed.

(** ** The naming codec *)

Lemma startsWith_jpg_dash (s t : string) :
  s ≠ "" → startsWith s ".jpg" = false → startsWith (s +:+ String "-" t) ".jpg" = false.
Proof. intros Hne. split_chars s. Qed.

Lemma startsWith_mp4_dash (s t : string) :
  s ≠ "" → startsWith s ".mp4" = false → startsWith (s +:+ String "-" t) ".mp4" = false.
Proof. intros Hne. split_chars s. Qed.

(** A label followed by a dash and a dotless rest has an extension inside
    only if the label has. *)
Lemma includes_jpg_dash (l t : string) :
  includes l ".jpg" = false → has_char "." t = false →
  includes (l +:+ String "-" t) ".jpg" = false.
Proof.
  intros Hl Ht. induction l as [|c l IH].
  - rewrite append_nil_l. apply includes_first_char. cbn. by rewrite Ht.
  - pose proof Hl as [H1 H2]%orb_false_iff.
    rewrite append_cons. cbn -[startsWith]. rewrite <- append_cons.
    rewrite startsWith_jpg_dash by done. by apply IH.
Qed.

Lemma includes_mp4_dash (l t : string) :
  includes l ".mp4" = false → has_char "." t = false →
  includes (l +:+ String "-" t) ".mp4" = false.
Proof.
  intros Hl Ht. induction l as [|c l IH].
  - rewrite append_nil_l. apply includes_first_char. cbn. by rewrite Ht.
  - pose proof Hl as [H1 H2]%orb_false_iff.
    rewrite append_cons. cbn -[startsWith]. rewrite <- append_cons.
    rewrite startsWith_mp4_dash by done. by apply IH.
Qed.

Lemma startsWith_jpg_underscore (s t : string) :
  s ≠ "" → startsWith s ".jpg" = false → startsWith (s +:+ String "_" t) ".jpg" = false.
Proof. intros Hne. split_chars s. Qed.

Lemma startsWith_mp4_underscore (s t : string) :
  s ≠ "" → startsWith s ".mp4" = false → startsWith (s +:+ String "_" t) ".mp4" = false.
Proof. intros Hne. split_chars s. Qed.

(** The same for a stem followed by an underscore and a dotless rest. *)
Lemma includes_jpg_underscore (l t : string) :
  includes l ".jpg" = false → has_char "." t = false →
  includes (l +:+ String "_" t) ".jpg" = false.
Proof.
  intros Hl Ht. induction l as [|c l IH].
  - rewrite append_nil_l. apply includes_first_char. cbn. by rewrite Ht.
  - pose proof Hl as [H1 H2]%orb_false_iff.
    rewrite append_cons. cbn -[startsWith]. rewrite <- append_cons.
    rewrite startsWith_jpg_underscore by done. by apply IH.
Qed.

Lemma includes_mp4_underscore (l t : string) :
  includes l ".mp4" = false → has_char "." t = false →
  includes (l +:+ String "_" t) ".mp4" = false.
Proof.
  intros Hl Ht. induction l as [|c l IH].
  - rewrite append_nil_l. apply includes_first_char. cbn. by rewrite Ht.
  - pose proof Hl as [H1 H2]%orb_false_iff.
    rewrite append_cons. cbn -[startsWith]. rewrite <- append_cons.
    rewrite startsWith_mp4_underscore by done. by apply IH.
Qed.

(** [parseFilename] on [stem.jpg], for a stem free of extensions. *)
Lemma parseFilename_stem (stem : string) :
  includes stem ".jpg" = false → includes stem ".mp4" = false →
  parseFilename (stem +:+ ".jpg") =
  if includes stem "-" then
    let '(last_part, parts) := pop (split stem "-") in
    let sub := from_option Number NaN last_part in
    let prefix := join parts "-" in
    if test_digits prefix then
      {| sequence := Some (Number prefix); subSequence := Some sub; textLabel := None |}
    else
      {| sequence := None; subSequence := Some sub; textLabel := Some prefix |}
  else if test_digits stem then
    {| sequence := Some (Number stem); subSequence := None; textLabel := None |}
  else
    {| sequence := None; subSequence := None; textLabel := Some stem |}.
Proof.
  intros Hj Hm. unfold parseFilename.
  by rewrite replace_jpg_suffix, (replace_absent ".mp4") by done.
Qed.

(** A stem without a dash: a run of digits is a sequence number, anything
    else a label. *)
Lemma parseFilename_plain (stem : string) :
  includes stem ".jpg" = false → includes stem ".mp4" = false →
  has_char "-" stem = false →
  parseFilename (stem +:+ ".jpg") =
  if test_digits stem then
    {| sequence := Some (Number stem); subSequence := None; textLabel := None |}
  else
    {| sequence := None; subSequence := None; textLabel := Some stem |}.
Proof.
  intros Hj Hm Hd. rewrite parseFilename_stem by done.
  by rewrite includes_char, Hd.
Qed.

(** A stem [a-b] whose [b] has no dash: [b] is the sub-sequence and [a] is
    read as above. *)
Lemma parseFilename_dashed (a b : string) :
  includes (a +:+ String "-" b) ".jpg" = false →
  includes (a +:+ String "-" b) ".mp4" = false →
  has_char "-" b = false →
  parseFilename (a +:+ String "-" b +:+ ".jpg") =
  if test_digits a then
    {| sequence := Some (Number a); subSequence := Some (Number b); textLabel := None |}
  else
    {| sequence := None; subSequence := Some (Number b); textLabel := Some a |}.
Proof.
  intros Hj Hm Hd.
  replace (a +:+ String "-" b +:+ ".jpg") with ((a +:+ String "-" b) +:+ ".jpg")
    by (by rewrite append_assoc, append_cons).
  rewrite parseFilename_stem by done.
  rewrite includes_char, has_char_app.
  assert (has_char "-" (String "-" b) = true) as ->
    by (cbn; by rewrite bool_decide_eq_true_2).
  rewrite orb_true_r, pop_split_last by done. cbn zeta.
  by rewrite join_split.
Qed.

Lemma digits_no_char (c : ascii) (n : N) :
  is_digit c = false → has_char c (N_toString n) = false.
Proof. intros Hc. apply all_digits_has_char; [done|apply N_toString_digits]. Qed.

Lemma padded_no_char (c : ascii) (n : N) (k : nat) :
  is_digit c = false → has_char c (padStart (N_toString n) k "0") = false.
Proof. intros Hc. apply all_digits_has_char; [done|apply padStart_digits]. Qed.

Lemma formatFilename_numeric (seq : N) :
  formatFilename (Int seq) None None = padStart (N_toString seq) 3 "0" +:+ ".jpg".
Proof. reflexivity. Qed.

Lemma formatFilename_numeric_sub (seq k : N) :
  formatFilename (Int seq) (Some (Int k)) None =
  padStart (N_toString seq) 3 "0" +:+ String "-" (N_toString k) +:+ ".jpg".
Proof. reflexivity. Qed.

(** The round trip of the numeric forms, for every sequence number and
    every sub-sequence number. *)
Lemma parse_format_numeric_any (seq : N) (sub : option N) :
  parseFilename (formatFilename (Int seq) (Int <$> sub) None) =
  {| sequence := Some (Int seq); subSequence := Int <$> sub; textLabel := None |}.
Proof.
  destruct sub as [k|]; cbn [fmap option_fmap option_map].
  - rewrite formatFilename_numeric_sub, parseFilename_dashed.
    + by rewrite test_digits_padStart, Number_padStart, Number_toString.
    + apply includes_first_char. rewrite has_char_app. cbn.
      by rewrite padded_no_char, digits_no_char.
    + apply includes_first_char. rewrite has_char_app. cbn.
      by rewrite padded_no_char, digits_no_char.
    + by apply digits_no_char.
  - rewrite formatFilename_numeric, parseFilename_plain.
    + by rewrite test_digits_padStart, Number_padStart.
    + apply includes_first_char. by apply padded_no_char.
    + apply includes_first_char. by apply padded_no_char.
    + by apply padded_no_char.
Qed.

(** C2. For every sequence number from 1 to 999 and every sub-sequence that
    is absent or from 1 to 99, parsing the formatted name gives back exactly
    that sequence and that sub-sequence. *)
Theorem parse_format_numeric (seq : N) (sub : option N) :
  1 ≤ seq ≤ 999 →
  (∀ k, sub = Some k → 1 ≤ k ≤ 99) →
  parseFilename (formatFilename (Int seq) (Int <$> sub) None) =
  {| sequence := Some (Int seq); subSequence := Int <$> sub; textLabel := None |}.
Proof. intros _ _. apply parse_format_numeric_any. Qed.

Lemma parse_format_numeric_witness :
  parseFilename (formatFilename (Int 5) (Int <$> Some 2) None) =
  {| sequence := Some (Int 5); subSequence := Int <$> Some 2; textLabel := None |}.
Proof.
  apply (parse_format_numeric 5 (Some 2)); [lia|].
  intros k [= <-]. lia.
Defined.

(** A label is left as it is by [sanitize] when it has none of the illegal
    characters. *)
Lemma sanitize_legal (l : string) :
  (∀ c, is_illegal c = true → has_char c l = false) → sanitize l = l.
Proof.
  induction l as [|x l IH]; [done|]. intros H. cbn.
  destruct (is_illegal x) eqn:Hx.
  - specialize (H x Hx). cbn in H. by rewrite bool_decide_eq_true_2 in H.
  - f_equal. apply IH. intros c Hc. specialize (H c Hc). cbn in H.
    by apply orb_false_iff in H as [_ ?].
Qed.

Lemma formatFilename_label (seq : number) (l : string) :
  l ≠ "" → formatFilename seq None (Some l) = sanitize l +:+ ".jpg".
Proof. by destruct l. Qed.

Lemma formatFilename_label_sub (seq : number) (l : string) (k : N) :
  l ≠ "" →
  formatFilename seq (Some (Int k)) (Some l) =
  sanitize l +:+ String "-" (N_toString k) +:+ ".jpg".
Proof. by destruct l. Qed.

(** C3, as stated, fails. A label with a dash and no sub-sequence is cut at
    its last dash; a label that contains an extension loses it; the empty
    label is formatted in the numeric form. *)
Lemma parse_format_label_counterexample :
  (test_digits "a-b" = false ∧ sanitize "a-b" = "a-b" ∧
   parseFilename (formatFilename (Int 1) None (Some "a-b")) =
   {| sequence := None; subSequence := Some NaN; textLabel := Some "a" |}) ∧
  (test_digits "x.mp4" = false ∧ sanitize "x.mp4" = "x.mp4" ∧
   parseFilename (formatFilename (Int 1) None (Some "x.mp4")) =
   {| sequence := None; subSequence := None; textLabel := Some "x" |}) ∧
  (test_digits "a.jpgb" = false ∧ sanitize "a.jpgb" = "a.jpgb" ∧
   parseFilename (formatFilename (Int 1) (Some (Int 2)) (Some "a.jpgb")) =
   {| sequence := None; subSequence := Some NaN; textLabel := Some "ab" |}) ∧
  (test_digits "" = false ∧ sanitize "" = "" ∧
   parseFilename (formatFilename (Int 7) None (Some "")) =
   {| sequence := Some (Int 7); subSequence := None; textLabel := None |}).
Proof. repeat split; reflexivity. Qed.

(** C3, amended. For a label that is not empty, not a run of digits,
    already sanitized (free of the illegal characters), free of the
    extensions [".jpg"] and [".mp4"], and, when there is no sub-sequence,
    free of dashes: parsing the
    formatted name gives back the label and the sub-sequence (absent or
    positive). *)
Theorem parse_format_label (seq : number) (l : string) (sub : option N) :
  l ≠ "" →
  test_digits l = false →
  sanitize l = l →
  includes l ".jpg" = false →
  includes l ".mp4" = false →
  (sub = None → has_char "-" l = false) →
  (∀ k, sub = Some k → 1 ≤ k) →
  parseFilename (formatFilename seq (Int <$> sub) (Some l)) =
  {| sequence := None; subSequence := Int <$> sub; textLabel := Some l |}.
Proof.
  intros Hne Hnum Hlegal Hj Hm Hdash _.
  destruct sub as [k|]; cbn [fmap option_fmap option_map].
  - rewrite formatFilename_label_sub, Hlegal by done.
    rewrite parseFilename_dashed.
    + by rewrite Hnum, Number_toString.
    + apply includes_jpg_dash; [done|by apply digits_no_char].
    + apply includes_mp4_dash; [done|by apply digits_no_char].
    + by apply digits_no_char.
  - rewrite formatFilename_label, Hlegal by done.
    rewrite parseFilename_plain by auto.
    by rewrite Hnum.
Qed.

Lemma parse_format_label_witness :
  parseFilename (formatFilename (Int 1) (Int <$> Some 5) (Some "Beam")) =
  {| sequence := None; subSequence := Int <$> Some 5; textLabel := Some "Beam" |}.
Proof.
  apply (parse_format_label (Int 1) "Beam" (Some 5)); try done.
  intros k [= <-]. lia.
Defined.

(** *** Names with a collision suffix *)

Lemma sanitize_no_illegal (c : ascii) (l : string) :
  is_illegal c = true → has_char c (sanitize l) = false.
Proof.
  intros Hc. induction l as [|x l IH]; [done|]. cbn. fold (sanitize l). rewrite IH.
  destruct (is_illegal x) eqn:Hx; case_bool_decide; subst; try done.
  congruence.
Qed.

(** A name [a-b_t.jpg] with a dashless [b] and a tail [t] without dash and
    dot: the part before the dash decides, and the sub-sequence is [NaN]. *)
Lemma parseFilename_dashed_suffixed (a b t : string) :
  includes a ".jpg" = false → includes a ".mp4" = false →
  has_char "-" b = false → has_char "." b = false →
  has_char "-" t = false → has_char "." t = false →
  parseFilename (a +:+ String "-" (b +:+ String "_" t) +:+ ".jpg") =
  if test_digits a then
    {| sequence := Some (Number a); subSequence := Some NaN; textLabel := None |}
  else
    {| sequence := None; subSequence := Some NaN; textLabel := Some a |}.
Proof.
  intros Hj Hm Hb1 Hb2 Ht1 Ht2.
  assert (Hdot : has_char "." (b +:+ String "_" t) = false).
  { rewrite has_char_app. cbn. by rewrite Hb2, Ht2. }
  rewrite parseFilename_dashed.
  - by rewrite Number_not_digits.
  - by apply includes_jpg_dash.
  - by apply includes_mp4_dash.
  - rewrite has_char_app. cbn. by rewrite Hb1, Ht1.
Qed.

(** A name [a_t.jpg] with a dashless stem [a] and a tail [t] without dash
    and dot is read as the label [a_t]. *)
Lemma parseFilename_plain_suffixed (a t : string) :
  includes a ".jpg" = false → includes a ".mp4" = false →
  has_char "-" a = false →
  has_char "-" t = false → has_char "." t = false →
  parseFilename (a +:+ String "_" t +:+ ".jpg") =
  {| sequence := None; subSequence := None; textLabel := Some (a +:+ String "_" t) |}.
Proof.
  intros Hj Hm Ha Ht1 Ht2.
  replace (a +:+ String "_" t +:+ ".jpg") with ((a +:+ String "_" t) +:+ ".jpg")
    by (by rewrite append_assoc, append_cons).
  rewrite parseFilename_plain.
  - by rewrite test_digits_suffixed.
  - by apply includes_jpg_underscore.
  - by apply includes_mp4_underscore.
  - rewrite has_char_app. cbn. by rewrite Ha, Ht1.
Qed.

(** The parse of a name with a collision tail, by the form of its stem:
    a head alone, or a head, a dash and a sub-sequence. *)
Lemma suffixed_parse (head : string) (sub : option N) (t : string) :
  includes head ".jpg" = false → includes head ".mp4" = false →
  (sub = None → has_char "-" head = false) →
  has_char "-" t = false → has_char "." t = false →
  parseFilename
    (match sub with Some k => head +:+ "-" +:+ N_toString k | None => head end
     +:+ String "_" t +:+ ".jpg") =
  match sub with
  | Some _ =>
      if test_digits head then
        {| sequence := Some (Number head); subSequence := Some NaN; textLabel := None |}
      else
        {| sequence := None; subSequence := Some NaN; textLabel := Some head |}
  | None =>
      {| sequence := None; subSequence := None; textLabel := Some (head +:+ String "_" t) |}
  end.
Proof.
  intros Hj Hm Hdash Ht1 Ht2. destruct sub as [k|].
  - replace ((head +:+ "-" +:+ N_toString k) +:+ String "_" t +:+ ".jpg")
      with (head +:+ String "-" (N_toString k +:+ String "_" t) +:+ ".jpg")
      by (by rewrite !append_assoc, !append_cons, !append_nil_l, !append_assoc).
    apply parseFilename_dashed_suffixed; try done; by apply digits_no_char.
  - apply parseFilename_plain_suffixed; auto.
Qed.



End NamingCodecFacts.

(** ** The highest sequence number of a folder *)

Section SequenceResolverFacts.

Lemma highest_step_le (m : N) (f : string) : m ≤ highest_step m f.
Proof.
  unfold highest_step. destruct (sequence (parseFilename f)) as [[n|]|]; try lia.
  destruct (N.ltb_spec m n); lia.
Qed.

Lemma highest_step_ge (m n : N) (f : string) :
  sequence (parseFilename f) = Some (Int n) → n ≤ highest_step m f.
Proof. unfold highest_step. intros ->. destruct (N.ltb_spec m n); lia. Qed.

Lemma highest_step_cases (m : N) (f : string) :
  highest_step m f = m ∨ sequence (parseFilename f) = Some (Int (highest_step m f)).
Proof.
  unfold highest_step. destruct (sequence (parseFilename f)) as [[n|]|]; auto.
  destruct (N.ltb_spec m n); auto.
Qed.

Lemma highest_step_label (m : N) (f : string) :
  sequence (parseFilename f) = None → highest_step m f = m.
Proof. unfold highest_step. by intros ->. Qed.

Lemma highest_fold_le (l : list string) (m : N) : m ≤ foldl highest_step m l.
Proof.
  revert m. induction l as [|f l IH]; intros m; cbn; [lia|].
  pose proof (highest_step_le m f). pose proof (IH (highest_step m f)). lia.
Qed.

(** The result of the scan is an upper bound of the sequence numbers. *)
Lemma highest_fold_upper (l : list string) (m : N) (f : string) (n : N) :
  f ∈ l → sequence (parseFilename f) = Some (Int n) → n ≤ foldl highest_step m l.
Proof.
  revert m. induction l as [|g l IH]; intros m Hin Hs; [by apply elem_of_nil in Hin|].
  apply elem_of_cons in Hin as [->|Hin]; cbn.
  - pose proof (highest_step_ge m n g Hs).
    pose proof (highest_fold_le l (highest_step m g)). lia.
  - by apply IH.
Qed.

(** The result of the scan is its start value or one of the sequence
    numbers. *)
Lemma highest_fold_attained (l : list string) (m : N) :
  foldl highest_step m l = m ∨
  ∃ f, f ∈ l ∧ sequence (parseFilename f) = Some (Int (foldl highest_step m l)).
Proof.
  revert m. induction l as [|g l IH]; intros m; cbn; [by left|].
  destruct (IH (highest_step m g)) as [->|(f & Hf & Hs)].
  - destruct (highest_step_cases m g) as [->|Hs]; [by left|].
    right. exists g. split; [apply list_elem_of_here|done].
  - right. exists f. split; [by apply list_elem_of_further|done].
Qed.

(** Names that parse to a label only leave the scan where it was. *)
Lemma highest_fold_labels (l : list string) (m : N) :
  (∀ f, f ∈ l → sequence (parseFilename f) = None) → foldl highest_step m l = m.
Proof.
  revert m. induction l as [|g l IH]; intros m H; cbn; [done|].
  rewrite highest_step_label by (apply H, list_elem_of_here).
  apply IH. intros f Hf. by apply H, list_elem_of_further.
Qed.

(** *** What [listPhotos] lists *)

Lemma startsWith_app_drop (s p : string) :
  startsWith s p = true → s = p +:+ drop (String.length p) s.
Proof.
  revert s. induction p as [|a p IH]; intros [|b s]; cbn; try done.
  intros [Hb Hs]%andb_true_iff. apply bool_decide_eq_true in Hb as ->.
  rewrite append_cons. f_equal. by apply IH.
Qed.

Lemma insert_by_mtime_perm (f : ReadDirItem) (l : list ReadDirItem) :
  insert_by_mtime f l ≡ₚ f :: l.
Proof.
  induction l as [|g l IH]; cbn; [done|].
  destruct (_ <=? _)%Z; [done|]. rewrite IH. apply Permutation_swap.
Qed.

Lemma sort_by_mtime_perm (l : list ReadDirItem) : sort_by_mtime l ≡ₚ l.
Proof.
  unfold sort_by_mtime. induction l as [|f l IH]; cbn; [done|].
  by rewrite insert_by_mtime_perm, IH.
Qed.

Lemma child_Some (dir p : string) (n : node) (item : ReadDirItem) :
  child dir (p, n) = Some item ↔
  p = dir +:+ "/" +:+ name item ∧ name item ≠ "" ∧ includes (name item) "/" = false ∧
  path item = p ∧
  match n with
  | File _ t => isFile item = true ∧ mtime item = t
  | Directory => isFile item = false ∧ mtime item = None
  end.
Proof.
  unfold child, below.
  assert (Hlen : (String.length dir + 1)%nat = String.length (dir +:+ "/"))
    by (rewrite length_append; done).
  split.
  - destruct (startsWith p (dir +:+ "/")) eqn:Hpre; [|done].
    apply startsWith_app_drop in Hpre. rewrite <- Hlen in Hpre.
    destruct (String.eqb_spec (drop (String.length dir + 1) p) "") as [|Hne]; [done|].
    destruct (includes _ "/") eqn:Hinc; [done|]. cbn.
    intros [= <-]. rewrite append_assoc in Hpre. by destruct n.
  - intros (-> & Hne & Hinc & Hpath & Hn).
    rewrite <- append_assoc, startsWith_append, Hlen, drop_append_length, Hinc.
    destruct (String.eqb_spec (name item) "") as [|_]; [done|]. cbn.
    destruct item as [nm pth isf mt]; cbn in *. subst pth.
    destruct n; destruct Hn as [-> ->]; by rewrite <- append_assoc.
Qed.

(** The names that [listPhotos] returns are those of the regular files
    directly in the folder that carry a media extension. *)
Lemma listPhotos_names (w : world) (folderPath nm : string) :
  nm ∈ name <$> listPhotos w folderPath ↔
  (folderPath ∉ denied w) ∧
  nodes w !! folderPath = Some Directory ∧
  nm ≠ "" ∧ includes nm "/" = false ∧
  (∃ data mt, nodes w !! (folderPath +:+ "/" +:+ nm) = Some (File data mt)) ∧
  (let lower := toLowerCase nm in
   endsWith lower ".jpg" || endsWith lower ".jpeg" || endsWith lower ".png"
   || endsWith lower ".mp4" || endsWith lower ".mov") = true.
Proof.
  unfold listPhotos, readDir. rewrite list_elem_of_fmap. split.
  - intros (item & -> & Hitem).
    case_bool_decide; [by apply elem_of_nil in Hitem|].
    destruct (nodes w !! folderPath) as [[]|] eqn:Hdir;
      try by apply elem_of_nil in Hitem.
    rewrite sort_by_mtime_perm in Hitem.
    apply list_elem_of_filter in Hitem as [Hmedia Hitem].
    apply list_elem_of_omap in Hitem as ([p n] & Hin & Hchild).
    apply elem_of_map_to_list in Hin.
    apply child_Some in Hchild as (-> & Hne & Hinc & Hpath & Hn).
    unfold isMedia in Hmedia. apply andb_true_iff in Hmedia as [Hfile Hext].
    destruct n as [data mt|]; [|destruct Hn; congruence].
    split_and!; try done. by exists data, mt.
  - intros (Hden & Hdir & Hne & Hinc & (data & mt & Hfile) & Hext).
    exists {| name := nm; path := folderPath +:+ "/" +:+ nm; isFile := true; mtime := mt |}.
    split; [done|]. rewrite bool_decide_eq_false_2, Hdir by done.
    rewrite sort_by_mtime_perm. apply list_elem_of_filter. split.
    + unfold isMedia. cbn in *. by rewrite Hext.
    + apply list_elem_of_omap. exists (folderPath +:+ "/" +:+ nm, File data mt).
      split; [by apply elem_of_map_to_list|]. by apply child_Some.
Qed.

Lemma highest_step_counted (m n : N) (f : string) :
  sequence (parseFilename f) = Some (Int n) → highest_step m f = N.max m n.
Proof.
  intros Hs. unfold highest_step. rewrite Hs.
  destruct (N.ltb_spec m n); lia.
Qed.

(** A name [stem.jpg] without slash is listed as soon as a regular file of
    a folder that can be read carries it. *)
Lemma jpg_name_listed (w : world) (folderPath stem data : string) (mt : option Z) :
  folderPath ∉ denied w →
  nodes w !! folderPath = Some Directory →
  has_char "/" stem = false →
  nodes w !! (folderPath +:+ "/" +:+ stem +:+ ".jpg") = Some (File data mt) →
  stem +:+ ".jpg" ∈ name <$> listPhotos w folderPath.
Proof.
  intros Hden Hdir Hslash Hfile. apply listPhotos_names.
  split_and!; [done|done| | |by exists data, mt|].
  - by destruct stem.
  - rewrite includes_char, has_char_app, Hslash. done.
  - cbv zeta. unfold toLowerCase. rewrite map_chars_app.
    change (map_chars lower_char ".jpg") with ".jpg". by rewrite endsWith_suffix.
Qed.

(** A media file whose name parses to no sequence number does not bear on
    the highest sequence number of its folder: the result is the same on the
    device without the file. *)
Lemma findHighestSequence_without_label (w : world) (folderPath f data : string)
    (mt : option Z) :
  nodes w !! (folderPath +:+ "/" +:+ f) = Some (File data mt) →
  sequence (parseFilename f) = None →
  findHighestSequence w folderPath =
  findHighestSequence
    (with_nodes w (delete (folderPath +:+ "/" +:+ f) (nodes w))) folderPath.
Proof.
  intros Hfile Hlabel. unfold findHighestSequence. cbv zeta.
  set (w' := with_nodes w (delete (folderPath +:+ "/" +:+ f) (nodes w))).
  set (names := name <$> listPhotos w folderPath).
  set (names' := name <$> listPhotos w' folderPath).
  assert (Hsub : ∀ nm, nm ∈ names' → nm ∈ names).
  { intros nm (Hden & Hdir & Hne & Hslash & (d & m & Hnm) & Hext)%listPhotos_names.
    cbn in Hdir, Hnm. apply lookup_delete_Some in Hdir as [_ Hdir].
    apply lookup_delete_Some in Hnm as [_ Hnm].
    apply listPhotos_names. split_and!; try done. by exists d, m. }
  assert (Hsup : ∀ nm, nm ∈ names → nm ≠ f → nm ∈ names').
  { intros nm (Hden & Hdir & Hne & Hslash & (d & m & Hnm) & Hext)%listPhotos_names Hnf.
    apply listPhotos_names. cbn. split_and!; try done.
    - apply lookup_delete_Some. split; [congruence|done].
    - exists d, m. apply lookup_delete_Some. split; [|done].
      intros Heq. apply Hnf. symmetry. by repeat apply (inj (String.app _)) in Heq. }
  apply N.le_antisymm.
  - destruct (highest_fold_attained names 0) as [->|(nm & Hnm & Hs)]; [lia|].
    apply (highest_fold_upper names' 0 nm); [|done].
    apply Hsup; [done|]. intros ->. congruence.
  - destruct (highest_fold_attained names' 0) as [->|(nm & Hnm & Hs)]; [lia|].
    apply (highest_fold_upper names 0 nm); [by apply Hsub|done].
Qed.

(** C4. [findHighestSequence] returns the maximum of the sequence numbers
    that the names of the media files of the folder parse to. The media
    files are those of the device: the regular files directly in the folder,
    which must be a directory that can be read, whose names end, in any
    case of the letters, in one of the five media extensions. The result
    bounds the sequence number of each of them, and it is 0 or the sequence
    number of one of them; names that parse to a label only are ignored, so
    that a folder without media files or with labelled files only gives 0;
    and a folder whose media files are ["001.jpg"], ["002-1.jpg"] and
    ["Beam-3.jpg"] gives 2. *)
Theorem findHighestSequence_is_max (w : world) (folderPath : string) :
  let media (f : string) : Prop :=
    (folderPath ∉ denied w) ∧
    nodes w !! folderPath = Some Directory ∧
    f ≠ "" ∧ includes f "/" = false ∧
    (∃ data mt, nodes w !! (folderPath +:+ "/" +:+ f) = Some (File data mt)) ∧
    (let lower := toLowerCase f in
     endsWith lower ".jpg" || endsWith lower ".jpeg" || endsWith lower ".png"
     || endsWith lower ".mp4" || endsWith lower ".mov") = true in
  let highest := findHighestSequence w folderPath in
  (∀ f n, media f → sequence (parseFilename f) = Some (Int n) → n ≤ highest) ∧
  (highest = 0 ∨ ∃ f, media f ∧ sequence (parseFilename f) = Some (Int highest)) ∧
  ((∀ f, media f → sequence (parseFilename f) = None) → highest = 0) ∧
  ((∀ f, media f ↔ f ∈ ["001.jpg"; "002-1.jpg"; "Beam-3.jpg"]) → highest = 2).
Proof.
  intros media highest. unfold findHighestSequence in highest.
  set (names := name <$> listPhotos w folderPath) in highest.
  assert (Hmedia : ∀ f, f ∈ names ↔ media f) by (intros f; apply listPhotos_names).
  assert (Hupper : ∀ f n, media f →
            sequence (parseFilename f) = Some (Int n) → n ≤ highest).
  { intros f n Hf. apply highest_fold_upper. by apply Hmedia. }
  assert (Hatt : highest = 0 ∨
            ∃ f, media f ∧ sequence (parseFilename f) = Some (Int highest)).
  { destruct (highest_fold_attained names 0) as [H0|(f & Hf & Hs)]; [by left|].
    right. exists f. split; [by apply Hmedia|done]. }
  assert (Hlabels : (∀ f, media f → sequence (parseFilename f) = None) → highest = 0).
  { intros Hall. apply highest_fold_labels. intros f Hf. by apply Hall, Hmedia. }
  clearbody highest names.
  split_and!; [done..|].
  intros Hthree.
  assert (2 ≤ highest) as Hge.
  { apply (Hupper "002-1.jpg"); [|done].
    apply Hthree, list_elem_of_further, list_elem_of_here. }
  destruct Hatt as [H0|(f & Hf & Hs)]; [lia|].
  apply Hthree in Hf.
  repeat (apply elem_of_cons in Hf as [->|Hf]); [..|by apply elem_of_nil in Hf];
    vm_compute in Hs; simplify_eq; lia.
Qed.

(** The same on a device: the three files, a sub-folder with a file of its
    own, and a text file. *)
Lemma findHighestSequence_is_max_witness :
  findHighestSequence
    {| nodes := list_to_map
         [("/sd/DCIM/WorkPhotos/Site", Directory);
          ("/sd/DCIM/WorkPhotos/Site/001.jpg", File "a" (Some 10%Z));
          ("/sd/DCIM/WorkPhotos/Site/002-1.jpg", File "b" (Some 30%Z));
          ("/sd/DCIM/WorkPhotos/Site/Beam-3.jpg", File "c" (Some 20%Z));
          ("/sd/DCIM/WorkPhotos/Site/notes.txt", File "d" (Some 40%Z));
          ("/sd/DCIM/WorkPhotos/Site/archive", Directory);
          ("/sd/DCIM/WorkPhotos/Site/archive/009_5.jpg", File "e" (Some 5%Z))];
       denied := ∅;
       ExternalStorageDirectoryPath := "/sd" |}
    "/sd/DCIM/WorkPhotos/Site" = 2.
Proof.
  match goal with |- findHighestSequence ?w ?d = _ =>
    destruct (findHighestSequence_is_max w d) as (_ & _ & _ & Hthree) end.
  apply Hthree. clear Hthree. intros f. split.
  - intros (_ & _ & Hne & Hslash & (data & mt & Hfile) & Hext).
    apply elem_of_map_to_list in Hfile.
    cbn [nodes] in Hfile.
    match type of Hfile with _ ∈ map_to_list ?m =>
      let l := eval vm_compute in (map_to_list m) in
      change (map_to_list m) with l in Hfile end.
    repeat (apply elem_of_cons in Hfile as [Heq|Hfile]);
      [..|by apply elem_of_nil in Hfile]; try discriminate Heq;
      injection Heq as Hpath _ _; rewrite append_nil_l in Hpath; subst f.
    + vm_compute in Hslash. discriminate Hslash.
    + vm_compute in Hext. discriminate Hext.
    + do 2 apply list_elem_of_further. apply list_elem_of_here.
    + apply list_elem_of_here.
    + apply list_elem_of_further, list_elem_of_here.
  - intros Hf.
    repeat (apply elem_of_cons in Hf as [->|Hf]); [..|by apply elem_of_nil in Hf];
      (split_and!;
       [apply not_elem_of_empty|reflexivity|discriminate|reflexivity|
        eexists _, _; reflexivity|reflexivity]).
Defined.
End SequenceResolverFacts.

(** ** Settings resolution *)

Section SettingsFacts.
Import AsyncStorage SettingsStorage.

(** The six settings that have a mode. *)
Lemma get_mode_keys (settings : AppSettings) :
  get settings Key.folderMode = Some (VMode (folderMode settings)) ∧
  get settings Key.shutterPositionMode = Some (VMode (shutterPositionMode settings)) ∧
  get settings Key.labelingModeMode = Some (VMode (labelingModeMode settings)) ∧
  get settings Key.captureMode = Some (VMode (captureMode settings)) ∧
  get settings Key.flashModeMode = Some (VMode (flashModeMode settings)) ∧
  get settings Key.cameraModeMode = Some (VMode (cameraModeMode settings)).
Proof. done. Qed.

Lemma getLastUsedState_stored JSON_parse (st : store) (key json : string) (v : value) :
  getItem st (LAST_USED_PREFIX +:+ key) = Returns (Some json) →
  json ≠ "" →
  JSON_parse json = Returns (Some v) →
  getLastUsedState JSON_parse st key = Some v.
Proof.
  unfold getLastUsedState. intros -> Hne Hp. destruct json; [done|]. by rewrite Hp.
Qed.

Lemma getLastUsedState_never JSON_parse (st : store) (key : string) :
  getItem st (LAST_USED_PREFIX +:+ key) = Returns None →
  getLastUsedState JSON_parse st key = None.
Proof. unfold getLastUsedState. by intros ->. Qed.

(** C7. For each of the six settings, [getInitialValue] resolves by the mode:
    [fixed] gives the persisted fixed value, or the default when it is
    absent; [lastUsed] gives the value stored last for the key, or the
    default when none was ever recorded; [default] gives the default. *)
Theorem getInitialValue_resolution JSON_parse (st : store) (settings : AppSettings)
    (settingKey fixedKey : Key.t) (lastUsedKey : string) (defaultValue : value)
    (mode : Mode) :
  settingKey ∈ [Key.folderMode; Key.shutterPositionMode; Key.labelingModeMode;
                Key.captureMode; Key.flashModeMode; Key.cameraModeMode] →
  get settings settingKey = Some (VMode mode) →
  let result :=
    getInitialValue JSON_parse st settings settingKey fixedKey lastUsedKey defaultValue in
  (mode = fixed →
     (∀ v, get settings fixedKey = Some v → result = v) ∧
     (get settings fixedKey = None → result = defaultValue)) ∧
  (mode = lastUsed →
     (∀ json v,
        getItem st (LAST_USED_PREFIX +:+ lastUsedKey) = Returns (Some json) →
        json ≠ "" → JSON_parse json = Returns (Some v) → result = v) ∧
     (getItem st (LAST_USED_PREFIX +:+ lastUsedKey) = Returns None →
      result = defaultValue)) ∧
  (mode = default_mode → result = defaultValue).
Proof.
  intros _ Hmode result. subst result. unfold getInitialValue. rewrite Hmode.
  split; [|split]; intros ->.
  - split; [intros v Hv|intros Hv]; by rewrite Hv.
  - split; [intros json v Hitem Hne Hparse|intros Hitem].
    + by erewrite getLastUsedState_stored.
    + by rewrite getLastUsedState_never.
  - done.
Qed.

(** A device that recorded "video" as the last capture mode. *)
Lemma getInitialValue_resolution_witness :
  let JSON_parse := fun json =>
    if String.eqb json (CameraView.dq +:+ "video" +:+ CameraView.dq)
    then Returns (Some (VCapture video)) else Throws in
  let st := {| items := {[ "@last_used_captureMode" :=
                             CameraView.dq +:+ "video" +:+ CameraView.dq ]};
               unreadable := ∅ |} in
  let settings :=
    {| ignoreOrientationLock := false;
       folderMode := lastUsed; fixedFolder := None;
       shutterPositionMode := default_mode; fixedShutterPositions := None;
       labelingModeMode := fixed; fixedLabelingMode := Some numbered_group;
       captureMode := lastUsed; fixedCaptureMode := None;
       flashModeMode := fixed; fixedFlashMode := None;
       cameraModeMode := default_mode; fixedCameraPosition := None |} in
  getInitialValue JSON_parse st settings Key.captureMode Key.fixedCaptureMode
    "captureMode" (VCapture photo) = VCapture video.
Proof.
  intros JSON_parse st settings.
  refine (proj1 (proj1 (proj2
    (getInitialValue_resolution JSON_parse st settings Key.captureMode
       Key.fixedCaptureMode "captureMode" (VCapture photo) lastUsed _ _)) _)
    (CameraView.dq +:+ "video" +:+ CameraView.dq) (VCapture video) _ _ _).
  - vm_compute. repeat constructor.
  - reflexivity.
  - reflexivity.
  - reflexivity.
  - discriminate.
  - reflexivity.
Defined.

(** When the mode is [fixed], [getInitialValue] hands out the stored folder
    without looking at the device. *)
Remark getInitialValue_fixed_folder JSON_parse (st : store) (settings : AppSettings)
    (f : Folder) (defaultValue : value) :
  folderMode settings = fixed → fixedFolder settings = Some f →
  getInitialValue JSON_parse st settings Key.folderMode Key.fixedFolder "folder"
    defaultValue = VFolder f.
Proof. intros Hm Hf. unfold getInitialValue. cbn. by rewrite Hm, Hf. Qed.

(** C6. With [folderMode] fixed and a [fixedFolder] whose path is no longer
    on the device, the start-up resolution of [App] yields the root session,
    whose path is the base directory. *)
Theorem setup_folder_fixed_missing (w : world) (settings : AppSettings)
    (lastFolder : option Folder) (f : Folder) :
  folderMode settings = fixed →
  fixedFolder settings = Some f →
  exists_ w (path f) = false →
  App.setup_folder w settings lastFolder = App.rootFolder w ∧
  path (App.setup_folder w settings lastFolder) = BASE_DIR w.
Proof.
  intros Hm Hf He. unfold App.setup_folder. by rewrite Hm, Hf, He.
Qed.

Lemma setup_folder_fixed_missing_witness :
  let w := {| nodes := {[ "/sd/DCIM/WorkPhotos" := Directory ]}; denied := ∅;
              ExternalStorageDirectoryPath := "/sd" |} in
  let gone := mkFolder "Site_20240101_090000" "/sd/DCIM/WorkPhotos/Site_20240101_090000" in
  let settings :=
    {| ignoreOrientationLock := false;
       folderMode := fixed; fixedFolder := Some gone;
       shutterPositionMode := default_mode; fixedShutterPositions := None;
       labelingModeMode := default_mode; fixedLabelingMode := None;
       captureMode := default_mode; fixedCaptureMode := None;
       flashModeMode := default_mode; fixedFlashMode := None;
       cameraModeMode := default_mode; fixedCameraPosition := None |} in
  App.setup_folder w settings (Some gone) = mkFolder "WorkPhotos" "/sd/DCIM/WorkPhotos".
Proof.
  intros w gone settings.
  exact (proj1 (setup_folder_fixed_missing w settings (Some gone) gone
                  eq_refl eq_refl eq_refl)).
Defined.

End SettingsFacts.

(** ** Names that are free on the device *)

Section UniqueNameFacts.

Lemma exists_dom (w : world) (p : string) : exists_ w p = true ↔ p ∈ dom (nodes w).
Proof. unfold exists_. rewrite bool_decide_eq_true. by rewrite elem_of_dom. Qed.

Lemma not_exists_dom (w : world) (p : string) : exists_ w p = false ↔ p ∉ dom (nodes w).
Proof. rewrite <- exists_dom. by destruct (exists_ w p). Qed.

Lemma not_exists_lookup (w : world) (p : string) : exists_ w p = false ↔ nodes w !! p = None.
Proof. rewrite not_exists_dom. apply not_elem_of_dom. Qed.

(** Among the candidates [c k], [c (k+1)], ... for distinct names, one of the
    first [size X + 1] is not in the finite set [X]; take the first. *)
Lemma least_free_candidate (c : N → string) (X : gset string) (k : N) :
  Inj (=) (=) c →
  ∃ j, k ≤ j ≤ k + N.of_nat (size X) ∧ (c j ∉ X) ∧ (∀ i, k ≤ i < j → c i ∈ X).
Proof.
  intros Hinj. remember (size X) as n eqn:Hn. revert X k Hn.
  induction n as [|n IH]; intros X k Hn.
  - exists k. split; [lia|]. split; [|intros i; lia].
    symmetry in Hn. apply size_empty_inv in Hn. intros Hk. rewrite Hn in Hk.
    by apply elem_of_empty in Hk.
  - destruct (decide (c k ∈ X)) as [Hin|Hout].
    + destruct (IH (X ∖ {[c k]}) (k + 1)) as (j & Hj & Hfree & Hbusy).
      { assert (size X = size ({[c k]} ∪ (X ∖ {[c k]}))) as Hsz.
        { f_equal. apply set_eq. intros x.
          rewrite elem_of_union, elem_of_difference, elem_of_singleton. split.
          - intros Hx. destruct (decide (x = c k)); [by left|by right].
          - by intros [->|[? _]]. }
        rewrite size_union, size_singleton in Hsz; [lia|].
        intros x Hx [_ Hx']%elem_of_difference. done. }
      exists j. split; [lia|]. split.
      * intros Hj'. apply Hfree. apply elem_of_difference. split; [done|].
        rewrite elem_of_singleton. intros Heq%Hinj. lia.
      * intros i Hi. destruct (decide (i = k)) as [->|Hne]; [done|].
        assert (c i ∈ X ∖ {[c k]}) as Hi' by (apply Hbusy; lia).
        by apply elem_of_difference in Hi' as [? _].
    + exists k. split; [lia|]. split; [done|intros i; lia].
Qed.

(** The suffixed names of [getUniqueFilename] and of [saveFile]. *)
Lemma unique_candidate_inj (folderPath base ext : string) :
  Inj (=) (=) (λ k : N, folderPath +:+ "/" +:+ base +:+ "_" +:+ N_toString k +:+ ext).
Proof.
  intros j k H. repeat apply (inj (String.app _)) in H.
  by apply append_inj_r, N_toString_inj in H.
Qed.

Lemma save_candidate_inj (folderPath base ext : string) :
  Inj (=) (=) (λ k : N, folderPath +:+ "/" +:+ base +:+ "_v" +:+ N_toString k +:+ ext).
Proof.
  intros j k H. repeat apply (inj (String.app _)) in H.
  by apply append_inj_r, N_toString_inj in H.
Qed.

(** The loop of [getUniqueFilename] stops at the first free candidate. *)
Lemma getUniqueFilename_loop_finds (w : world) (folderPath base ext : string) (j : N) :
  ∀ (fuel : nat) (filename : string) (counter : N),
  counter < j →
  (N.to_nat (j - counter) < fuel)%nat →
  exists_ w (folderPath +:+ "/" +:+ filename) = true →
  (∀ i, counter < i < j →
     exists_ w (folderPath +:+ "/" +:+ base +:+ "_" +:+ N_toString i +:+ ext) = true) →
  exists_ w (folderPath +:+ "/" +:+ base +:+ "_" +:+ N_toString j +:+ ext) = false →
  getUniqueFilename_loop fuel w folderPath base ext filename counter =
  Some (base +:+ "_" +:+ N_toString j +:+ ext).
Proof.
  induction fuel as [|fuel IH]; intros filename counter Hlt Hfuel Hcur Hbusy Hfree; [lia|].
  cbn. rewrite Hcur. destruct (decide (counter + 1 = j)) as [<-|Hne].
  - destruct fuel as [|fuel]; [lia|]. cbn. by rewrite Hfree.
  - apply IH; [lia|lia| |intros i Hi; apply Hbusy; lia|done].
    apply Hbusy. lia.
Qed.

Lemma saveFile_loop_finds (w : world) (folderPath base ext : string) (j : N) :
  ∀ (fuel : nat) (destPath : string) (counter : N),
  counter < j →
  (N.to_nat (j - counter) < fuel)%nat →
  exists_ w destPath = true →
  (∀ i, counter < i < j →
     exists_ w (folderPath +:+ "/" +:+ base +:+ "_v" +:+ N_toString i +:+ ext) = true) →
  exists_ w (folderPath +:+ "/" +:+ base +:+ "_v" +:+ N_toString j +:+ ext) = false →
  saveFile_loop fuel w folderPath base ext destPath counter =
  Some (folderPath +:+ "/" +:+ base +:+ "_v" +:+ N_toString j +:+ ext).
Proof.
  induction fuel as [|fuel IH]; intros destPath counter Hlt Hfuel Hcur Hbusy Hfree; [lia|].
  cbn. rewrite Hcur. destruct (decide (counter + 1 = j)) as [<-|Hne].
  - destruct fuel as [|fuel]; [lia|]. cbn. by rewrite Hfree.
  - apply IH; [lia|lia| |intros i Hi; apply Hbusy; lia|done].
    apply Hbusy. lia.
Qed.

(** [getUniqueFilename] returns: the formatted name when it is free, and
    otherwise the name with the least suffix from 2 on that is free. *)
Lemma getUniqueFilename_cases (w : world) (folderPath : string) (seq : number)
    (sub : option number) (text : option string) :
  let filename := formatFilename seq sub text in
  let ext := if endsWith filename ".mp4" then ".mp4" else ".jpg" in
  let base := replace filename ext "" in
  (exists_ w (folderPath +:+ "/" +:+ filename) = false ∧
   getUniqueFilename w folderPath seq sub text = Some filename) ∨
  (exists_ w (folderPath +:+ "/" +:+ filename) = true ∧
   ∃ k, 2 ≤ k ∧
     getUniqueFilename w folderPath seq sub text =
       Some (base +:+ "_" +:+ N_toString k +:+ ext) ∧
     exists_ w (folderPath +:+ "/" +:+ base +:+ "_" +:+ N_toString k +:+ ext) = false).
Proof.
  intros filename ext base. unfold getUniqueFilename. fold filename. fold ext. fold base.
  destruct (exists_ w (folderPath +:+ "/" +:+ filename)) eqn:Hcur.
  - right. split; [done|].
    destruct (least_free_candidate
                (λ k, folderPath +:+ "/" +:+ base +:+ "_" +:+ N_toString k +:+ ext)
                (dom (nodes w)) 2 (unique_candidate_inj _ _ _))
      as (j & Hj & Hfree & Hbusy).
    rewrite size_dom in Hj.
    exists j. split; [lia|]. split; [|by apply not_exists_dom].
    apply getUniqueFilename_loop_finds; [lia|lia|done| |by apply not_exists_dom].
    intros i Hi. apply exists_dom, Hbusy. lia.
  - left. split; [done|]. cbn. by rewrite Hcur.
Qed.

(** [saveFile] finds its destination in the same way. *)
Lemma saveFile_destination (w : world) (folderPath filename : string) :
  let ext := if endsWith filename ".mp4" then ".mp4" else ".jpg" in
  let base := slice_to_end_minus filename (String.length ext) in
  ∃ destPath,
    saveFile_loop (2 + size (nodes w)) w folderPath base ext
      (folderPath +:+ "/" +:+ filename) 1 = Some destPath ∧
    exists_ w destPath = false ∧
    (destPath = folderPath +:+ "/" +:+ filename ∨
     ∃ k, 2 ≤ k ∧ destPath = folderPath +:+ "/" +:+ base +:+ "_v" +:+ N_toString k +:+ ext).
Proof.
  intros ext base.
  destruct (exists_ w (folderPath +:+ "/" +:+ filename)) eqn:Hcur.
  - destruct (least_free_candidate
                (λ k, folderPath +:+ "/" +:+ base +:+ "_v" +:+ N_toString k +:+ ext)
                (dom (nodes w)) 2 (save_candidate_inj _ _ _))
      as (j & Hj & Hfree & Hbusy).
    rewrite size_dom in Hj.
    eexists. split; [|split; [by apply not_exists_dom|right; exists j; split; [lia|done]]].
    apply saveFile_loop_finds; [lia|lia|done| |by apply not_exists_dom].
    intros i Hi. apply exists_dom, Hbusy. lia.
  - eexists. split; [cbn; by rewrite Hcur|]. split; [done|by left].
Qed.

End UniqueNameFacts.

(** ** Moves on the device *)

Section DeviceFacts.

Lemma moveFile_throws (w w' : world) (src dst : string) :
  moveFile w src dst = (Throws, w') → w' = w.
Proof.
  unfold moveFile. case_bool_decide; [intros H'; by simplify_eq|].
  destruct (negb _); [intros H'; by simplify_eq|].
  destruct (nodes w !! src) as [[data mt|]|]; intros H'; by simplify_eq.
Qed.

(** Moving a regular file takes it from [src] and puts it at [dst]. *)
Lemma moveFile_file (w w' : world) (src dst data : string) (mt : option Z) :
  nodes w !! src = Some (File data mt) →
  moveFile w src dst = (Returns tt, w') →
  nodes w' = <[dst := File data mt]> (delete src (nodes w)).
Proof.
  unfold moveFile. intros ->. case_bool_decide; [done|].
  destruct (negb _); [done|]. intros H'. by simplify_eq.
Qed.



(** [saveFile] moves the temporary file to a path that was free, or stops
    with the rejection of the move. *)
Lemma saveFile_outcome (w : world) (tempPath folderPath filename data : string)
    (mt : option Z) :
  nodes w !! tempPath = Some (File data mt) →
  ∃ res w',
    saveFile w tempPath folderPath filename = Some (res, w') ∧
    match res with
    | Returns saved =>
        exists_ w saved = false ∧
        nodes w' = <[saved := File data mt]> (delete tempPath (nodes w))
    | Throws => w' = w
    end.
Proof.
  intros Htemp. unfold saveFile.
  destruct (saveFile_destination w folderPath filename) as (destPath & -> & Hfree & _).
  cbn. destruct (moveFile w tempPath destPath) as [[[]|] w'] eqn:Hmv.
  - eexists _, _. split; [done|]. split; [done|]. by eapply moveFile_file.
  - eexists _, _. split; [done|]. by apply moveFile_throws in Hmv.
Qed.



End DeviceFacts.

(** ** Captures and the sequencing state *)

Section CaptureFacts.
Import SettingsStorage CameraView.

(** A failed capture leaves the cells alone; a saved one applies
    [after_capture]. *)
Lemma takePhoto_cases (env : Ambient) (folder : Folder) (w w' : world) (s s' : State) :
  takePhoto env folder w s = Some (w', s') →
  s' = s ∨
  ∃ photo saved, camera env = Some (Returns photo) ∧
    capture_io env folder w s photo = Some (Returns saved, w') ∧
    s' = after_capture saved s.
Proof.
  unfold takePhoto. destruct (camera env) as [[photo|]|]; [|naive_solver..].
  destruct (capture_io env folder w s photo) as [[[saved|] w2]|] eqn:Hio; cbn; [..|done].
  - intros [= <- <-]. right. by exists photo, saved.
  - intros [= <- <-]. by left.
Qed.

Lemma takePhoto_saved (env : Ambient) (folder : Folder) (w w' : world) (s : State)
    (photo saved : string) :
  camera env = Some (Returns photo) →
  capture_io env folder w s photo = Some (Returns saved, w') →
  takePhoto env folder w s = Some (w', after_capture saved s).
Proof. unfold takePhoto. by intros -> ->. Qed.

Lemma after_capture_retake (saved : string) (s : State) (t : ParsedName) :
  retakeTarget s = Some t →
  after_capture saved s = setRetakeTarget None (setLastPhoto (Some saved) s).
Proof. unfold after_capture. by intros ->. Qed.

(** C9. A retake leaves the sequencing state as it was: entering the retake
    sets the target only, and when the capture has been saved the sequence,
    the sub-sequence, the label, the labeling mode and the used labels are
    those from before, the target is cleared and the last photo is the saved
    file. *)
Theorem retake_keeps_sequence (env : Ambient) (folder : Folder) (w w' : world)
    (s : State) (t : ParsedName) (photo saved : string) :
  retakeTarget s = Some t →
  camera env = Some (Returns photo) →
  capture_io env folder w s photo = Some (Returns saved, w') →
  ∃ s', takePhoto env folder w s = Some (w', s') ∧
    sequence s' = sequence s ∧
    subSequence s' = subSequence s ∧
    textLabel s' = textLabel s ∧
    labelingMode s' = labelingMode s ∧
    usedLabels s' = usedLabels s ∧
    retakeTarget s' = None ∧
    s' = setRetakeTarget None (setLastPhoto (Some saved) s) ∧
    (∀ s0, sequence (retakeLast s0) = sequence s0 ∧
           subSequence (retakeLast s0) = subSequence s0).
Proof.
  intros Ht Hcam Hio. eexists. split; [by apply takePhoto_saved with photo|].
  rewrite (after_capture_retake saved s t Ht).
  split_and!; try done.
  intros s0. unfold retakeLast. by destruct (lastPhoto s0).
Qed.

Lemma retake_keeps_sequence_witness :
  let w := {| nodes := list_to_map
                [("/sd/DCIM/WorkPhotos/Site", Directory);
                 ("/sd/DCIM/WorkPhotos/Site/004.jpg", File "four" (Some 10%Z));
                 ("/sd/DCIM/WorkPhotos/Site/005.jpg", File "five" (Some 20%Z));
                 ("/cache/shot.jpg", File "again" (Some 30%Z))];
              denied := ∅; ExternalStorageDirectoryPath := "/sd" |} in
  let env := {| camera := Some (Returns "/cache/shot.jpg");
                nameDate := mkDate 2024 0 1 9 0 0 1704099600000;
                random36 := "0.k3j5x8";
                archiveDate := mkDate 2024 0 1 9 0 1 1704099601000 |} in
  let folder := mkFolder "Site" "/sd/DCIM/WorkPhotos/Site" in
  let s := retakeLast
             (setLastPhoto (Some "/sd/DCIM/WorkPhotos/Site/005.jpg")
                (setSequence 6 initialState)) in
  ∃ w' s', takePhoto env folder w s = Some (w', s') ∧
           sequence s' = 6 ∧ subSequence s' = 1 ∧ retakeTarget s' = None.
Proof.
  intros w env folder s.
  destruct (capture_io env folder w s "/cache/shot.jpg") as [[[saved|] w']|] eqn:Hio;
    [|vm_compute in Hio; discriminate..].
  destruct (retake_keeps_sequence env folder w w' s
              {| NamingCodec.sequence := Some (Int 5);
                 NamingCodec.subSequence := None;
                 NamingCodec.textLabel := None |}
              "/cache/shot.jpg" saved eq_refl eq_refl Hio)
    as (s' & Htake & Hseq & Hsub & _ & _ & _ & Htarget & _).
  exists w', s'. rewrite Hseq, Hsub.
  split; [exact Htake|]. split; [reflexivity|]. split; [reflexivity|exact Htarget].
Defined.

Lemma formatFilename_empty_label (seq : number) (sub : option number) :
  formatFilename seq sub (Some "") = formatFilename seq sub None.
Proof. reflexivity. Qed.

Lemma getUniqueFilename_empty_label (w : world) (folderPath : string) (seq : number)
    (sub : option number) :
  getUniqueFilename w folderPath seq sub (Some "") =
  getUniqueFilename w folderPath seq sub None.
Proof. reflexivity. Qed.






End CaptureFacts.

(** ** The index editor *)

Section IndexEditorFacts.
Import SettingsStorage CameraView.



Lemma noWarning_warning_text (filename : string) (s : State) :
  noWarning (setIndexWarning (Some (warning_text filename)) s) = false.
Proof. reflexivity. Qed.

Lemma noWarning_commit (newSeq : N) (newTextLabel : string) (newSubSeq : option N)
    (s : State) :
  noWarning (commit_index newSeq newTextLabel newSubSeq s) = true.
Proof. reflexivity. Qed.












End IndexEditorFacts.

(** ** Collision suffixes and the sequence scan *)

Section CollisionFacts.

(** C10, as stated, fails for a capture with a sub-sequence. When
    ["003-1.jpg"] exists, [getUniqueFilename] gives ["003-1_2.jpg"], whose
    parse has the sequence 3 (and [NaN] as sub-sequence); the same holds for
    the name ["003-1_v2.jpg"] of [saveFile]; and a folder that holds
    ["001.jpg"] and ["003-1_2.jpg"] has 3 as its highest sequence. *)
Lemma collision_suffix_counterexample :
  let w := {| nodes := list_to_map
                [("/sd/DCIM/WorkPhotos/Site", Directory);
                 ("/sd/DCIM/WorkPhotos/Site/001.jpg", File "one" (Some 10%Z));
                 ("/sd/DCIM/WorkPhotos/Site/003-1.jpg", File "three" (Some 20%Z));
                 ("/cache/shot.jpg", File "new" (Some 40%Z))];
              denied := ∅; ExternalStorageDirectoryPath := "/sd" |} in
  let w2 := {| nodes := list_to_map
                [("/sd/DCIM/WorkPhotos/Site", Directory);
                 ("/sd/DCIM/WorkPhotos/Site/001.jpg", File "one" (Some 10%Z));
                 ("/sd/DCIM/WorkPhotos/Site/003-1_2.jpg", File "new" (Some 40%Z))];
              denied := ∅; ExternalStorageDirectoryPath := "/sd" |} in
  getUniqueFilename w "/sd/DCIM/WorkPhotos/Site" (Int 3) (Some (Int 1)) None
    = Some "003-1_2.jpg" ∧
  fst <$> saveFile w "/cache/shot.jpg" "/sd/DCIM/WorkPhotos/Site" "003-1.jpg"
    = Some (Returns "/sd/DCIM/WorkPhotos/Site/003-1_v2.jpg") ∧
  parseFilename "003-1_2.jpg" =
    {| sequence := Some (Int 3); subSequence := Some NaN; textLabel := None |} ∧
  parseFilename "003-1_v2.jpg" =
    {| sequence := Some (Int 3); subSequence := Some NaN; textLabel := None |} ∧
  highest_step 1 "003-1_2.jpg" = 3 ∧
  findHighestSequence w2 "/sd/DCIM/WorkPhotos/Site" = 3.
Proof. repeat split; vm_compute; reflexivity. Qed.

(** C10, amended. The names with a collision suffix that [getUniqueFilename]
    ([stem_K.jpg]) and [saveFile] ([stem_vK.jpg]) produce, where [stem] is the
    formatted name without its extension. For a capture without
    sub-sequence, numeric or labelled, such a name is parsed as a label; so
    it is for a labelled capture with a sub-sequence, unless the label is a
    run of digits. These names have no sequence number, the scan of
    [findHighestSequence] steps over them, and the result for a folder is the
    same with and without such a file. For a numeric capture with a
    sub-sequence (and for a label that is a run of digits, with a
    sub-sequence) the name with the suffix still parses to the number before
    the dash as its sequence, with [NaN] as sub-sequence, and the scan counts
    it. A label is taken free of the extensions [".jpg"] and [".mp4"] and,
    when there is no sub-sequence, free of dashes. *)
Theorem collision_suffix_is_label (w : world) (folderPath : string) (seq : N)
    (sub : option N) (label : option string) :
  let head :=
    match label with
    | Some (String _ _ as l) => sanitize l
    | _ => padStart (N_toString seq) 3 "0"
    end in
  let stem :=
    match sub with Some k => head +:+ "-" +:+ N_toString k | None => head end in
  let filename := formatFilename (Int seq) (Int <$> sub) label in
  (∀ l, label = Some l → l ≠ "" →
     includes (sanitize l) ".jpg" = false ∧ includes (sanitize l) ".mp4" = false ∧
     (sub = None → has_char "-" (sanitize l) = false)) →
  filename = stem +:+ ".jpg" ∧
  (∀ f, getUniqueFilename w folderPath (Int seq) (Int <$> sub) label = Some f →
     f = filename ∨ ∃ k, 2 ≤ k ∧ f = stem +:+ "_" +:+ N_toString k +:+ ".jpg") ∧
  (∀ tempPath saved w',
     saveFile w tempPath folderPath filename = Some (Returns saved, w') →
     saved = folderPath +:+ "/" +:+ filename ∨
     ∃ k, 2 ≤ k ∧ saved = folderPath +:+ "/" +:+ stem +:+ "_v" +:+ N_toString k +:+ ".jpg") ∧
  (∀ k f,
     f = stem +:+ "_" +:+ N_toString k +:+ ".jpg" ∨
     f = stem +:+ "_v" +:+ N_toString k +:+ ".jpg" →
     if match sub with Some _ => test_digits head | None => false end then
       ∃ n, Number head = Int n ∧
         (head = padStart (N_toString seq) 3 "0" → n = seq) ∧
         parseFilename f =
           {| sequence := Some (Int n); subSequence := Some NaN; textLabel := None |} ∧
         (∀ m, highest_step m f = N.max m n) ∧
         (∀ data mt,
            folderPath ∉ denied w → nodes w !! folderPath = Some Directory →
            nodes w !! (folderPath +:+ "/" +:+ f) = Some (File data mt) →
            n ≤ findHighestSequence w folderPath)
     else
       sequence (parseFilename f) = None ∧
       is_Some (textLabel (parseFilename f)) ∧
       (∀ m, highest_step m f = m) ∧
       (∀ data mt,
          nodes w !! (folderPath +:+ "/" +:+ f) = Some (File data mt) →
          findHighestSequence w folderPath =
          findHighestSequence
            (with_nodes w (delete (folderPath +:+ "/" +:+ f) (nodes w))) folderPath)).
Proof.
  intros head stem filename Hlabel.
  (* the head *)
  assert (Hhead : includes head ".jpg" = false ∧ includes head ".mp4" = false ∧
                  (sub = None → has_char "-" head = false) ∧
                  has_char "/" head = false).
  { unfold head. destruct label as [[|c l]|].
    - split_and!; [apply includes_first_char|apply includes_first_char|intros _|];
        by apply padded_no_char.
    - destruct (Hlabel (String c l) eq_refl) as (Hj & Hm & Hd); [done|].
      split_and!; [done..|]. by apply sanitize_no_illegal.
    - split_and!; [apply includes_first_char|apply includes_first_char|intros _|];
        by apply padded_no_char. }
  destruct Hhead as (Hj & Hm & Hdash & Hslash).
  (* the formatted name *)
  assert (Hname : filename = stem +:+ ".jpg").
  { unfold filename, stem, head, formatFilename.
    destruct label as [[|c l]|], sub as [k|]; cbn [fmap option_fmap option_map toString];
      cbv zeta; by rewrite ?append_assoc. }
  assert (Hstem_j : includes stem ".jpg" = false).
  { unfold stem. destruct sub as [k|]; [|done].
    apply (includes_jpg_dash head (N_toString k)); [done|by apply digits_no_char]. }
  assert (Hstem_slash : has_char "/" stem = false).
  { unfold stem. destruct sub as [k|]; [|done].
    rewrite !has_char_app, Hslash, digits_no_char by done. done. }
  assert (Hext : endsWith filename ".mp4" = false) by (rewrite Hname; by rewrite endsWith_app).
  assert (Hbase : replace filename ".jpg" "" = stem)
    by (rewrite Hname; by apply replace_jpg_suffix).
  assert (Hslice : slice_to_end_minus filename (String.length ".jpg") = stem)
    by (rewrite Hname; apply (slice_app _ ".jpg")).
  split; [done|]. split; [|split].
  - intros f Hf.
    pose proof (getUniqueFilename_cases w folderPath (Int seq) (Int <$> sub) label)
      as Hcases. cbv zeta in Hcases. fold filename in Hcases.
    rewrite Hext, Hbase in Hcases.
    destruct Hcases as [[_ Hplain]|(_ & k & Hk & Hsuff & _)].
    + left. congruence.
    + right. exists k. split; [done|congruence].
  - intros tempPath saved w' Hsave. unfold saveFile in Hsave.
    pose proof (saveFile_destination w folderPath filename) as Hdest. cbv zeta in Hdest.
    rewrite Hext, Hslice in Hsave, Hdest.
    destruct Hdest as (destPath & Hloop & _ & Hcases).
    rewrite Hloop in Hsave. cbn [mbind option_bind] in Hsave.
    destruct (moveFile w tempPath destPath) as [[[]|] w2]; [|done].
    injection Hsave as <- <-.
    destruct Hcases as [->|(k & Hk & ->)]; [by left|right]. by exists k.
  - intros k f Hf.
    assert (∃ t, f = stem +:+ String "_" t +:+ ".jpg" ∧
                 has_char "-" t = false ∧ has_char "." t = false ∧
                 has_char "/" t = false) as (t & -> & Ht1 & Ht2 & Ht3).
    { destruct Hf as [->| ->].
      - exists (N_toString k). split_and!; [done|by apply digits_no_char..].
      - exists (String "v" (N_toString k)).
        split_and!; [done|cbn; by rewrite digits_no_char..]. }
    pose proof (suffixed_parse head sub t Hj Hm Hdash Ht1 Ht2) as Hparse.
    fold stem in Hparse.
    assert (Hlisted : ∀ data mt,
              folderPath ∉ denied w → nodes w !! folderPath = Some Directory →
              nodes w !! (folderPath +:+ "/" +:+ stem +:+ String "_" t +:+ ".jpg")
                = Some (File data mt) →
              stem +:+ String "_" t +:+ ".jpg" ∈ name <$> listPhotos w folderPath).
    { intros data mt Hden Hdir Hfile.
      replace (stem +:+ String "_" t +:+ ".jpg") with ((stem +:+ String "_" t) +:+ ".jpg")
        by (by rewrite append_assoc).
      apply (jpg_name_listed w folderPath _ data mt); [done|done| |].
      - rewrite has_char_app, Hstem_slash. cbn. by rewrite Ht3.
      - by rewrite append_assoc. }
    destruct sub as [sk|].
    + destruct (test_digits head) eqn:Hdigits.
      * destruct (Number_digits head Hdigits) as [n Hn]. rewrite Hn in Hparse.
        exists n. split_and!; [done| |done| |].
        -- intros Hpad. rewrite Hpad, Number_padStart in Hn. by simplify_eq.
        -- intros m. apply highest_step_counted. by rewrite Hparse.
        -- intros data mt Hden Hdir Hfile. unfold findHighestSequence. cbv zeta.
           apply (highest_fold_upper _ 0 (stem +:+ String "_" t +:+ ".jpg"));
             [by apply (Hlisted data mt)|by rewrite Hparse].
      * split_and!.
        -- by rewrite Hparse.
        -- rewrite Hparse. by eexists.
        -- intros m. apply highest_step_label. by rewrite Hparse.
        -- intros data mt Hfile.
           apply (findHighestSequence_without_label w folderPath _ data mt Hfile).
           by rewrite Hparse.
    + split_and!.
      * by rewrite Hparse.
      * rewrite Hparse. by eexists.
      * intros m. apply highest_step_label. by rewrite Hparse.
      * intros data mt Hfile.
        apply (findHighestSequence_without_label w folderPath _ data mt Hfile).
        by rewrite Hparse.
Qed.

Lemma collision_suffix_is_label_witness :
  let w := {| nodes := list_to_map
                [("/sd/DCIM/WorkPhotos/Site", Directory);
                 ("/sd/DCIM/WorkPhotos/Site/001.jpg", File "one" (Some 10%Z));
                 ("/sd/DCIM/WorkPhotos/Site/Beam-1.jpg", File "beam" (Some 20%Z));
                 ("/sd/DCIM/WorkPhotos/Site/Beam-1_2.jpg", File "again" (Some 30%Z))];
              denied := ∅; ExternalStorageDirectoryPath := "/sd" |} in
  getUniqueFilename w "/sd/DCIM/WorkPhotos/Site" (Int 2) (Some (Int 1)) (Some "Beam")
    = Some "Beam-1_3.jpg" ∧
  sequence (parseFilename "Beam-1_2.jpg") = None ∧
  (∀ m, highest_step m "Beam-1_2.jpg" = m) ∧
  findHighestSequence w "/sd/DCIM/WorkPhotos/Site" =
  findHighestSequence
    (with_nodes w (delete "/sd/DCIM/WorkPhotos/Site/Beam-1_2.jpg" (nodes w)))
    "/sd/DCIM/WorkPhotos/Site".
Proof.
  intros w.
  destruct (collision_suffix_is_label w "/sd/DCIM/WorkPhotos/Site" 2 (Some 1) (Some "Beam"))
    as (_ & _ & _ & Hsuffixed).
  { intros l [= <-] _. split; [reflexivity|]. split; [reflexivity|discriminate]. }
  specialize (Hsuffixed 2 "Beam-1_2.jpg" (or_introl eq_refl)).
  lazymatch type of Hsuffixed with
  | (if ?c then _ else _) => change c with false in Hsuffixed
  end.
  destruct Hsuffixed as (Hseq & _ & Hstep & Hdevice).
  split; [vm_compute; reflexivity|]. split; [exact Hseq|]. split; [exact Hstep|].
  exact (Hdevice "again" (Some 30%Z) eq_refl).
Defined.

End CollisionFacts.

(** ** Retakes and the archive *)

Section ArchiveFacts.
Import SettingsStorage CameraView.




End ArchiveFacts.

(** ** The shape of the names *)

Section CodecShapeFacts.

Lemma filter_chars_app (f : ascii → bool) (a b : string) :
  filter_chars f (a +:+ b) = filter_chars f a +:+ filter_chars f b.
Proof.
  induction a as [|c a IH]; [by rewrite !append_nil_l|].
  rewrite append_cons. cbn. destruct (f c); [rewrite append_cons|]; by rewrite IH.
Qed.

Lemma digit_is_legal (c : ascii) : is_digit c = true → is_illegal c = false.
Proof. destruct c as [[] [] [] [] [] [] [] []]; by vm_compute. Qed.

Lemma filter_illegal_digits (s : string) :
  all_digits s = true → filter_chars is_illegal s = "".
Proof.
  induction s as [|c s IH]; [done|]. cbn. intros [Hc Hs]%andb_true_iff.
  rewrite (digit_is_legal c Hc). by apply IH.
Qed.

Lemma filter_illegal_sanitize (s : string) : filter_chars is_illegal (sanitize s) = "".
Proof.
  induction s as [|c s IH]; [done|]. cbn. fold (sanitize s).
  destruct (is_illegal c) eqn:Hc; [|by rewrite Hc]. done.
Qed.

Lemma filter_illegal_toString (x : number) : filter_chars is_illegal (toString x) = "".
Proof.
  destruct x as [n|]; [|by vm_compute].
  apply filter_illegal_digits, N_toString_digits.
Qed.

Lemma formatFilename_stem (seq : number) (sub : option number) (label : option string) :
  ∃ stem, formatFilename seq sub label = stem +:+ ".jpg".
Proof.
  unfold formatFilename.
  destruct label as [[|c l]|], sub as [k|]; cbn zeta; rewrite <- ?append_assoc; by eexists.
Qed.

Lemma formatFilename_filter_illegal (seq : number) (sub : option number)
    (label : option string) :
  filter_chars is_illegal (formatFilename seq sub label) = "".
Proof.
  assert (Hpad : filter_chars is_illegal (padStart (toString seq) 3 "0") = "").
  { destruct seq as [n|]; [|by vm_compute].
    apply filter_illegal_digits, padStart_digits. }
  unfold formatFilename.
  destruct label as [[|c l]|], sub as [k|]; cbn zeta;
    rewrite ?filter_chars_app, ?Hpad, ?filter_illegal_sanitize, ?filter_illegal_toString;
    done.
Qed.

Lemma filter_chars_has_char (f : ascii → bool) (c : ascii) (s : string) :
  filter_chars f s = "" → f c = true → has_char c s = false.
Proof.
  intros Hs Hc. induction s as [|x s IH]; [done|]. cbn in *.
  destruct (f x) eqn:Hx; [done|]. rewrite IH by done.
  case_bool_decide; [congruence|done].
Qed.

(** X1. Whatever the index, the name [formatFilename] returns contains none
    of the nine characters that are illegal in a file name, in particular no
    slash, so that it names an entry of the folder itself; and it ends in
    [.jpg]. *)
Theorem formatFilename_legal (seq : number) (sub : option number) (label : option string) :
  filter_chars is_illegal (formatFilename seq sub label) = "" ∧
  has_char "/" (formatFilename seq sub label) = false ∧
  endsWith (formatFilename seq sub label) ".jpg" = true.
Proof.
  split_and!.
  - apply formatFilename_filter_illegal.
  - apply (filter_chars_has_char is_illegal); [apply formatFilename_filter_illegal|done].
  - destruct (formatFilename_stem seq sub label) as [stem ->]. apply endsWith_suffix.
Qed.

(** X2. A name parses to exactly one primary key: either to a sequence
    number, which is then a count and never [NaN], and no label; or to a
    label that is not a run of digits, and no sequence number. A
    sub-sequence is returned exactly when the name, without its extension,
    contains a dash. *)
Theorem parseFilename_one_primary (filename : string) :
  let parsed := parseFilename filename in
  let stem := replace (replace filename ".jpg" "") ".mp4" "" in
  (((∃ n, sequence parsed = Some (Int n)) ∧ textLabel parsed = None) ∨
   (sequence parsed = None ∧
    ∃ l, textLabel parsed = Some l ∧ test_digits l = false)) ∧
  (is_Some (subSequence parsed) ↔ has_char "-" stem = true).
Proof.
  cbv zeta. unfold parseFilename. rewrite includes_char.
  set (stem := replace (replace filename ".jpg" "") ".mp4" "").
  destruct (has_char "-" stem).
  - destruct (pop (split stem "-")) as [last_part parts].
    destruct (test_digits (join parts "-")) eqn:Hd; cbn.
    + destruct (Number_digits _ Hd) as [n ->].
      split; [left; split; [by exists n|done]|]. split; [done|by eexists].
    + split; [right; split; [done|by eexists]|]. split; [done|by eexists].
  - destruct (test_digits stem) eqn:Hd; cbn.
    + destruct (Number_digits _ Hd) as [n ->].
      split; [left; split; [by exists n|done]|]. split; [by intros [? ?]|done].
    + split; [right; split; [done|by eexists]|]. split; [by intros [? ?]|done].
Qed.

End CodecShapeFacts.

(** ** What the storage functions guarantee *)

Section StorageGuarantees.

(** X3. [getUniqueFilename] always returns, and the name it returns is not
    taken in the folder. It is the formatted name when that one is free;
    otherwise it carries the least suffix [_k], [k] from 2 on, that is
    free. *)
Theorem getUniqueFilename_free (w : world) (folderPath : string) (seq : number)
    (sub : option number) (text : option string) :
  let filename := formatFilename seq sub text in
  let ext := if endsWith filename ".mp4" then ".mp4" else ".jpg" in
  let base := replace filename ext "" in
  ∃ unique,
    getUniqueFilename w folderPath seq sub text = Some unique ∧
    fileExists w folderPath unique = false ∧
    if fileExists w folderPath filename then
      ∃ k, 2 ≤ k ∧ unique = base +:+ "_" +:+ N_toString k +:+ ext ∧
        ∀ j, 2 ≤ j < k →
          fileExists w folderPath (base +:+ "_" +:+ N_toString j +:+ ext) = true
    else unique = filename.
Proof.
  intros filename ext base. unfold getUniqueFilename, fileExists.
  fold filename. fold ext. fold base.
  destruct (exists_ w (folderPath +:+ "/" +:+ filename)) eqn:Hcur.
  - destruct (least_free_candidate
                (λ k, folderPath +:+ "/" +:+ base +:+ "_" +:+ N_toString k +:+ ext)
                (dom (nodes w)) 2 (unique_candidate_inj _ _ _))
      as (j & Hj & Hfree & Hbusy).
    rewrite size_dom in Hj. apply not_exists_dom in Hfree.
    exists (base +:+ "_" +:+ N_toString j +:+ ext). split_and!.
    + apply getUniqueFilename_loop_finds; [lia|lia|done| |done].
      intros i Hi. apply exists_dom, Hbusy. lia.
    + done.
    + exists j. split_and!; [lia|done|]. intros i Hi. by apply exists_dom, Hbusy.
  - exists filename. split_and!; [|done|done]. cbn. by rewrite Hcur.
Qed.

(** X4. [saveFile] never overwrites. When the temporary path holds a
    regular file, the call returns; if it resolves, the path it returns was
    free before, holds the file afterwards, the temporary path is gone and
    every other path is as before; if it rejects, the device is as before. *)
Theorem saveFile_never_overwrites (w : world) (tempPath folderPath filename data : string)
    (mt : option Z) :
  nodes w !! tempPath = Some (File data mt) →
  ∃ res w',
    saveFile w tempPath folderPath filename = Some (res, w') ∧
    match res with
    | Returns saved =>
        nodes w !! saved = None ∧
        nodes w' !! saved = Some (File data mt) ∧
        nodes w' !! tempPath = None ∧
        ∀ q, q ≠ saved → q ≠ tempPath → nodes w' !! q = nodes w !! q
    | Throws => w' = w
    end.
Proof.
  intros Htemp.
  destruct (saveFile_outcome w tempPath folderPath filename data mt Htemp)
    as (res & w' & Hsave & Hres).
  exists res, w'. split; [done|]. destruct res as [saved|]; [|done].
  destruct Hres as [Hfree ->]. apply not_exists_lookup in Hfree.
  assert (saved ≠ tempPath) as Hne by congruence.
  split_and!; [done| | |].
  - apply lookup_insert_eq.
  - rewrite lookup_insert_ne by done. apply lookup_delete_eq.
  - intros q Hq Hq'. rewrite lookup_insert_ne by done. by apply lookup_delete_ne.
Qed.

Lemma saveFile_never_overwrites_witness :
  let w := {| nodes := {[ "/c/t.jpg" := File "new" None; "/s/A" := Directory;
                          "/s/A/001.jpg" := File "old" None ]};
              denied := ∅; ExternalStorageDirectoryPath := "/s" |} in
  ∃ res w',
    saveFile w "/c/t.jpg" "/s/A" "001.jpg" = Some (res, w') ∧
    match res with
    | Returns saved =>
        nodes w !! saved = None ∧
        nodes w' !! saved = Some (File "new" None) ∧
        nodes w' !! "/c/t.jpg" = None ∧
        ∀ q, q ≠ saved → q ≠ "/c/t.jpg" → nodes w' !! q = nodes w !! q
    | Throws => w' = w
    end.
Proof.
  intros w. apply (saveFile_never_overwrites w "/c/t.jpg" "/s/A" "001.jpg" "new" None).
  vm_compute. reflexivity.
Defined.

Lemma replace_length (s p r : string) :
  (String.length p ≤ String.length r)%nat →
  (String.length s ≤ String.length (replace s p r))%nat.
Proof.
  intros Hpr. induction s as [|c s IH]; rewrite replace_unfold.
  - destruct (startsWith "" p) eqn:Hp; [|done]. cbn. lia.
  - destruct (startsWith (String c s) p) eqn:Hp; [|cbn; lia].
    apply startsWith_app_drop in Hp. rewrite length_append.
    rewrite Hp at 1. rewrite length_append. lia.
Qed.

(** X5. An archive step that answers [true] for a regular file has moved
    it: the file is in the [archive] directory of the folder, under its name
    with the first [.jpg] replaced by an underscore, the milliseconds of the
    clock and [.jpg]; its old path is free; and no path besides these two
    and the [archive] directory itself has changed. *)
Theorem archiveExistingFile_moves (now : Date) (w w' : world)
    (folderPath filename data : string) (mt : option Z) :
  nodes w !! (folderPath +:+ "/" +:+ filename) = Some (File data mt) →
  archiveExistingFile now w folderPath filename = (true, w') →
  let archived :=
    (folderPath +:+ "/archive") +:+ "/" +:+
    replace filename ".jpg" ("_" +:+ N_toString (getTime now) +:+ ".jpg") in
  nodes w' !! archived = Some (File data mt) ∧
  nodes w' !! (folderPath +:+ "/" +:+ filename) = None ∧
  ∀ q, q ≠ archived → q ≠ folderPath +:+ "/" +:+ filename →
       q ≠ folderPath +:+ "/archive" → nodes w' !! q = nodes w !! q.
Proof.
  intros Hfile Harch archived. unfold archiveExistingFile in Harch.
  fold archived in Harch.
  assert (exists_ w (folderPath +:+ "/" +:+ filename) = true) as Hex
    by (apply bool_decide_eq_true; rewrite Hfile; by eexists).
  rewrite Hex in Harch.
  assert (archived ≠ folderPath +:+ "/" +:+ filename) as Hne.
  { intros Heq. apply (f_equal String.length) in Heq. unfold archived in Heq.
    rewrite !length_append in Heq.
    pose proof (replace_length filename ".jpg"
                  ("_" +:+ N_toString (getTime now) +:+ ".jpg")) as Hlen.
    rewrite !length_append in Hlen. cbn in Heq, Hlen. lia. }
  destruct (if negb (exists_ w (folderPath +:+ "/archive"))
            then mkdir w (folderPath +:+ "/archive") else (Returns tt, w))
    as [[[]|] w1] eqn:Hmk; [|done].
  assert (nodes w1 !! (folderPath +:+ "/" +:+ filename) = Some (File data mt) ∧
          ∀ q, q ≠ folderPath +:+ "/archive" → nodes w1 !! q = nodes w !! q)
    as [Hfile1 Hsame].
  { destruct (negb _); [|by simplify_eq]. unfold mkdir in Hmk.
    case_bool_decide; [done|].
    destruct (nodes w !! (folderPath +:+ "/archive")) eqn:Ha; simplify_eq; [done|].
    cbn. split.
    - rewrite lookup_insert_ne; [done|]. congruence.
    - intros q Hq. by rewrite lookup_insert_ne. }
  destruct (moveFile w1 _ archived) as [[[]|] w2] eqn:Hmv; [|done].
  simplify_eq. apply (moveFile_file _ _ _ _ _ _ Hfile1) in Hmv. rewrite Hmv.
  split_and!.
  - apply lookup_insert_eq.
  - rewrite lookup_insert_ne by done. apply lookup_delete_eq.
  - intros q Hq Hq' Hq''. rewrite lookup_insert_ne, lookup_delete_ne by done.
    by apply Hsame.
Qed.

Lemma archiveExistingFile_moves_witness :
  let now := mkDate 2024 0 15 10 30 0 1705312200000 in
  let w := {| nodes := {[ "/s/A" := Directory; "/s/A/005.jpg" := File "old" None ]};
              denied := ∅; ExternalStorageDirectoryPath := "/s" |} in
  let w' := (archiveExistingFile now w "/s/A" "005.jpg").2 in
  nodes w' !! "/s/A/archive/005_1705312200000.jpg" = Some (File "old" None) ∧
  nodes w' !! "/s/A/005.jpg" = None.
Proof.
  intros now w w'.
  destruct (archiveExistingFile_moves now w w' "/s/A" "005.jpg" "old" None)
    as (H1 & H2 & _); [vm_compute; reflexivity|vm_compute; reflexivity|].
  split; [exact H1|exact H2].
Defined.

End StorageGuarantees.

(** ** The listing of a folder *)

Section ListingFacts.




End ListingFacts.

(** ** Resuming in a folder *)

Section ResumeFacts.
Import SettingsStorage CameraView.





End ResumeFacts.

(** ** Captures and the folder *)

Section CaptureResumeFacts.
Import SettingsStorage CameraView.



End CaptureResumeFacts.

(** ** The names of session folders *)

Section FolderNameFacts.
Import SettingsStorage SessionFolders.

Lemma length_1 (s : string) : String.length s = 1%nat → ∃ a, s = String a "".
Proof. destruct s as [|a [|b s]]; try done. by exists a. Qed.

Lemma length_2 (s : string) :
  String.length s = 2%nat → ∃ a b, s = String a (String b "").
Proof. destruct s as [|a [|b [|c s]]]; try done. by exists a, b. Qed.

Lemma length_4 (s : string) :
  String.length s = 4%nat →
  ∃ a b c d, s = String a (String b (String c (String d ""))).
Proof. destruct s as [|a [|b [|c [|d [|e s]]]]]; try done. by exists a, b, c, d. Qed.

(** Two digits for a number below 100, four for a year of four digits. *)
Lemma pad2_length (n : N) : n < 100 → String.length (padStart (N_toString n) 2 "0") = 2%nat.
Proof.
  intros Hn.
  assert (forallb (λ k, String.length (padStart (N_toString (N.of_nat k)) 2 "0") =? 2)%nat
            (seq 0 100) = true) as Hall by (by vm_compute).
  rewrite forallb_forall in Hall.
  specialize (Hall (N.to_nat n)). rewrite N2Nat.id in Hall.
  apply Nat.eqb_eq, Hall, in_seq. lia.
Qed.

Lemma year_length (y : N) : 1000 ≤ y ≤ 9999 → String.length (N_toString y) = 4%nat.
Proof.
  intros Hy.
  assert (forallb (λ a, forallb (λ b,
            String.length (N_toString (1000 + 100 * N.of_nat a + N.of_nat b)) =? 4)%nat
            (seq 0 100)) (seq 0 90) = true) as Hall by (by vm_compute).
  pose proof (N.div_mod (y - 1000) 100 ltac:(done)) as Hdm.
  assert ((y - 1000) / 100 < 90) as Ha by (apply N.Div0.div_lt_upper_bound; lia).
  assert ((y - 1000) mod 100 < 100) as Hb by (by apply N.mod_lt).
  revert Hdm Ha Hb.
  generalize ((y - 1000) / 100) as a. generalize ((y - 1000) mod 100) as b.
  intros b a Hdm Ha Hb.
  rewrite forallb_forall in Hall.
  specialize (Hall (N.to_nat a)). rewrite forallb_forall in Hall.
  assert (In (N.to_nat a) (seq 0 90)) as Hina by (apply in_seq; lia).
  assert (In (N.to_nat b) (seq 0 100)) as Hinb by (apply in_seq; lia).
  specialize (Hall Hina (N.to_nat b) Hinb).
  rewrite !N2Nat.id in Hall. apply Nat.eqb_eq in Hall.
  replace (1000 + 100 * a + b) with y in Hall; [done|lia].
Qed.

Lemma pad2_shape (n : N) :
  n < 100 →
  ∃ a b, padStart (N_toString n) 2 "0" = String a (String b "") ∧
         is_digit a = true ∧ is_digit b = true.
Proof.
  intros Hn. destruct (length_2 _ (pad2_length n Hn)) as (a & b & Heq).
  exists a, b. split; [done|].
  pose proof (padStart_digits n 2) as Hd. rewrite Heq in Hd. cbn in Hd.
  apply andb_true_iff in Hd as [Ha Hb]. apply andb_true_iff in Hb as [Hb _]. done.
Qed.

Lemma timestamp_suffix (now : Date) :
  calendar_date now →
  String.length ("_" +:+ getTimestamp now) = 16%nat ∧
  is_timestamp_suffix ("_" +:+ getTimestamp now) = true.
Proof.
  intros (Hy & Hmo & Hd & Hh & Hmi & Hs). unfold getTimestamp. cbv zeta.
  destruct (length_4 _ (year_length _ Hy)) as (y1 & y2 & y3 & y4 & Hyear).
  pose proof (N_toString_digits (getFullYear now)) as Hyd. rewrite Hyear in Hyd |- *.
  destruct (pad2_shape (getMonth now + 1)) as (m1 & m2 & -> & ? & ?); [lia|].
  destruct (pad2_shape (getDate now)) as (d1 & d2 & -> & ? & ?); [lia|].
  destruct (pad2_shape (getHours now)) as (h1 & h2 & -> & ? & ?); [lia|].
  destruct (pad2_shape (getMinutes now)) as (i1 & i2 & -> & ? & ?); [lia|].
  destruct (pad2_shape (getSeconds now)) as (s1 & s2 & -> & ? & ?); [lia|].
  cbn in Hyd. repeat (apply andb_true_iff in Hyd as [? Hyd]).
  rewrite ?append_cons, ?append_nil_l. split; [done|].
  unfold is_timestamp_suffix, substring. cbn.
  repeat match goal with H : is_digit _ = true |- _ => rewrite H; clear H end. done.
Qed.

Lemma getFolderBaseName_timestamped (now : Date) (base : string) :
  calendar_date now →
  has_line_terminator base = false →
  getFolderBaseName (base +:+ "_" +:+ getTimestamp now) = base.
Proof.
  intros Hnow Hlt. destruct (timestamp_suffix now Hnow) as [Hlen Hsuffix].
  unfold getFolderBaseName. cbv zeta. rewrite length_append, Hlen.
  replace (String.length base + 16 - 16)%nat with (String.length base) by lia.
  by rewrite take_append_length, drop_append_length, Hsuffix, Hlt.
Qed.

Lemma startsWith_sanitize (p s : string) :
  (∀ c, has_char c p = true → is_illegal c = false ∧ c ≠ "_"%char) →
  startsWith (sanitize s) p = startsWith s p.
Proof.
  revert s. induction p as [|a p IH]; intros s Hp; [done|].
  destruct s as [|b s]; [done|]. cbn. fold (sanitize s).
  destruct (Hp a) as [Ha Ha']; [cbn; by rewrite bool_decide_eq_true_2|].
  rewrite IH by (intros c Hc; apply Hp; cbn; by rewrite Hc, orb_true_r).
  f_equal. destruct (is_illegal b) eqn:Hb; [|done].
  rewrite !bool_decide_eq_false_2; [done|congruence|congruence].
Qed.

Lemma includes_sanitize (p s : string) :
  (∀ c, has_char c p = true → is_illegal c = false ∧ c ≠ "_"%char) →
  includes (sanitize s) p = includes s p.
Proof.
  intros Hp. induction s as [|b s IH]; [done|].
  change (includes (sanitize (String b s)) p)
    with (startsWith (sanitize (String b s)) p || includes (sanitize s) p).
  by rewrite startsWith_sanitize, IH.
Qed.

(** Replacing the illegal characters neither removes nor adds a line
    terminator. *)
Lemma has_line_terminator_sanitize (s : string) :
  has_line_terminator (sanitize s) = has_line_terminator s.
Proof.
  unfold has_line_terminator. rewrite <- !includes_char.
  rewrite !includes_sanitize; [done|..]; intros c Hc; cbn in Hc;
    repeat (case_bool_decide; [subst c; by vm_compute|]); done.
Qed.

(** X9. The name of a session folder gives back its base name. On a clock
    with a year of four digits, the folder that [createNewSessionFolder] or
    [renameFolder] returns has a name from which [getFolderBaseName] takes
    exactly the prefix and the new name, with the illegal characters
    replaced, provided they hold no line terminator. *)
Theorem folder_base_name_round_trip (now : Date) (w : world) :
  calendar_date now →
  (∀ prefix f w',
     has_line_terminator (default "Session" prefix) = false →
     createNewSessionFolder now w prefix = (Returns f, w') →
     name f = sanitize (default "Session" prefix) +:+ "_" +:+ getTimestamp now ∧
     getFolderBaseName (name f) = sanitize (default "Session" prefix)) ∧
  (∀ oldName newName f w',
     has_line_terminator newName = false →
     renameFolder now w oldName newName = (Returns f, w') →
     name f = sanitize newName +:+ "_" +:+ getTimestamp now ∧
     getFolderBaseName (name f) = sanitize newName).
Proof.
  intros Hnow. split.
  - intros prefix f w' Hlt. unfold createNewSessionFolder. cbv zeta.
    destruct (mkdir w _) as [[[]|] w1]; [|done]. intros [= <- <-]. cbn [name].
    split; [done|]. apply getFolderBaseName_timestamped; [done|].
    by rewrite has_line_terminator_sanitize.
  - intros oldName newName f w' Hlt. unfold renameFolder. cbv zeta.
    destruct (moveFile w _ _) as [[[]|] w1]; [|done]. intros [= <- <-]. cbn [name].
    split; [done|]. apply getFolderBaseName_timestamped; [done|].
    by rewrite has_line_terminator_sanitize.
Qed.

Lemma folder_base_name_round_trip_witness :
  let now := mkDate 2024 0 15 10 30 5 1705314605000 in
  let w := {| nodes := {[ "/sd/DCIM/WorkPhotos" := Directory ]};
              denied := ∅; ExternalStorageDirectoryPath := "/sd" |} in
  ∃ f w',
    createNewSessionFolder now w (Some "Site A/B") = (Returns f, w') ∧
    name f = "Site A_B_20240115_103005" ∧ getFolderBaseName (name f) = "Site A_B".
Proof.
  intros now w.
  destruct (createNewSessionFolder now w (Some "Site A/B")) as [[f|] w'] eqn:Hcreate;
    [|vm_compute in Hcreate; discriminate Hcreate].
  exists f, w'. split; [reflexivity|].
  destruct (folder_base_name_round_trip now w) as [Hcreated _].
  { unfold calendar_date. cbn. lia. }
  exact (Hcreated (Some "Site A/B") f w' eq_refl Hcreate).
Defined.

End FolderNameFacts.

(** ** Renaming a session folder *)

Section RenameFacts.
Import SettingsStorage SessionFolders.

(** Where the nodes are after a directory has been moved. *)
Lemma moveFile_directory (w w' : world) (src dst : string) :
  nodes w !! src = Some Directory →
  moveFile w src dst = (Returns tt, w') →
  nodes w' !! dst = Some Directory ∧
  (∀ rest n, nodes w !! (src +:+ "/" +:+ rest) = Some n →
             nodes w' !! (dst +:+ "/" +:+ rest) = Some n) ∧
  (∀ q, q ≠ dst → below dst q = false →
        nodes w' !! q =
        if bool_decide (q = src) || below src q then None else nodes w !! q).
Proof.
  intros Hsrc. unfold moveFile. rewrite Hsrc.
  case_bool_decide; [done|]. destruct (negb _); [done|]. cbv zeta.
  set (inside := filter (λ e, below src e.1 = true) (nodes w)).
  set (outside := filter (λ e, below src e.1 = false) (delete src (nodes w))).
  set (moved := list_to_map (rebase src dst <$> map_to_list inside) : gmap string node).
  intros [= <-]. cbn [nodes with_nodes].
  assert (Hkeys : NoDup ((rebase src dst <$> map_to_list inside).*1)).
  { rewrite <- list_fmap_compose.
    apply NoDup_fmap_2_strong; [|apply NoDup_map_to_list].
    intros [k1 n1] [k2 n2] H1 H2 Heq. cbn in Heq.
    apply elem_of_map_to_list in H1, H2.
    apply map_lookup_filter_Some in H1 as [H1 Hb1], H2 as [H2 Hb2]. cbn in Hb1, Hb2.
    apply startsWith_app_drop in Hb1, Hb2.
    assert (drop (String.length src) k1 = drop (String.length src) k2) as Hd.
    { by apply (inj (String.app dst)) in Heq. }
    assert (k1 = k2) as ->.
    { rewrite Hb1, Hb2. rewrite !length_append in *.
      rewrite Hb1, Hb2 in Hd. rewrite !append_assoc in Hd.
      rewrite !drop_append_length in Hd. by rewrite !append_assoc, Hd. }
    congruence. }
  assert (Hin : ∀ rest n, nodes w !! (src +:+ "/" +:+ rest) = Some n →
            moved !! (dst +:+ "/" +:+ rest) = Some n).
  { intros rest n Hn. apply elem_of_list_to_map_1; [done|].
    apply list_elem_of_fmap. exists (src +:+ "/" +:+ rest, n). split.
    - unfold rebase. cbn. by rewrite drop_append_length.
    - apply elem_of_map_to_list, map_lookup_filter_Some. split; [done|]. cbn.
      unfold below. rewrite <- append_assoc. apply startsWith_append. }
  assert (Hout : ∀ q n, moved !! q = Some n → below dst q = true).
  { intros q n Hq. apply elem_of_list_to_map_2 in Hq.
    apply list_elem_of_fmap in Hq as ([k m] & Heq & Hk). unfold rebase in Heq.
    cbn in Heq. injection Heq as -> ->.
    apply elem_of_map_to_list, map_lookup_filter_Some in Hk as [_ Hb]. cbn in Hb.
    apply startsWith_app_drop in Hb. rewrite Hb at 1.
    rewrite length_append, append_assoc. 
    replace (drop (String.length src) (src +:+ "/" +:+ drop (String.length src + String.length "/") k))
      with ("/" +:+ drop (String.length src + String.length "/") k)
      by (by rewrite drop_append_length).
    unfold below. rewrite <- append_assoc. apply startsWith_append. }
  split_and!.
  - apply lookup_insert_eq.
  - intros rest n Hn. rewrite lookup_insert_ne.
    + apply lookup_union_Some_l. by apply Hin.
    + intros Heq. apply (f_equal String.length) in Heq.
      rewrite !length_append in Heq. cbn in Heq. lia.
  - intros q Hq Hbelow. rewrite lookup_insert_ne by done.
    assert (moved !! q = None) as Hnone.
    { destruct (moved !! q) as [n|] eqn:Hm; [|done].
      apply Hout in Hm. congruence. }
    rewrite lookup_union_r by done. unfold outside.
    case_bool_decide as Hqs; cbn [orb].
    + subst q. apply map_lookup_filter_None. left. apply lookup_delete_eq.
    + destruct (below src q) eqn:Hb.
      * apply map_lookup_filter_None. right. intros n _. cbn. congruence.
      * destruct (nodes w !! q) as [n|] eqn:Hn.
        -- apply map_lookup_filter_Some. split; [|done].
           by rewrite lookup_delete_ne.
        -- apply map_lookup_filter_None. left. by rewrite lookup_delete_ne.
Qed.

Lemma startsWith_app_same (p s t : string) :
  startsWith (p +:+ s) (p +:+ t) = startsWith s t.
Proof.
  induction p as [|c p IH]; [by rewrite !append_nil_l|].
  rewrite !append_cons. cbn. by rewrite bool_decide_eq_true_2, IH.
Qed.

(** A name without slash is not below a folder of another name, nor is
    anything in it. *)
Lemma startsWith_entry (a b rest : string) :
  has_char "/" a = false → has_char "/" b = false →
  startsWith (b +:+ "/" +:+ rest) (a +:+ "/") = true → a = b.
Proof.
  revert b. induction a as [|x a IH]; intros b Ha Hb.
  - destruct b as [|y b]; [done|]. rewrite append_cons, append_nil_l. cbn.
    cbn in Hb. apply orb_false_iff in Hb as [Hy _]. apply bool_decide_eq_false in Hy.
    rewrite bool_decide_eq_false_2 by congruence. done.
  - cbn in Ha. apply orb_false_iff in Ha as [Hx Ha]. apply bool_decide_eq_false in Hx.
    destruct b as [|y b].
    + rewrite append_nil_l, !append_cons. cbn.
      rewrite bool_decide_eq_false_2 by congruence. done.
    + rewrite !append_cons. cbn. intros [Hy Hrest]%andb_true_iff.
      apply bool_decide_eq_true in Hy. subst y.
      cbn in Hb. apply orb_false_iff in Hb as [_ Hb]. f_equal. by apply IH.
Qed.

Lemma startsWith_name (a b : string) :
  has_char "/" b = false → startsWith b (a +:+ "/") = false.
Proof.
  revert b. induction a as [|x a IH]; intros b Hb.
  - rewrite append_nil_l. destruct b as [|y b]; [done|]. cbn in *.
    apply orb_false_iff in Hb as [Hy _]. apply bool_decide_eq_false in Hy.
    rewrite bool_decide_eq_false_2 by congruence. done.
  - rewrite append_cons. destruct b as [|y b]; [done|]. cbn in *.
    apply orb_false_iff in Hb as [_ Hb]. rewrite IH by done. apply andb_false_r.
Qed.

Lemma getTimestamp_no_char (c : ascii) (now : Date) :
  is_digit c = false → c ≠ "_"%char → has_char c (getTimestamp now) = false.
Proof.
  intros Hc Hu. unfold getTimestamp. cbv zeta.
  rewrite !has_char_app, !padded_no_char, digits_no_char by done. cbn.
  by rewrite bool_decide_eq_false_2 by congruence.
Qed.

(** X10. Renaming a session folder takes its photos along. When
    [renameFolder] resolves for a folder of the base directory, the folder
    it returns lies in the base directory under the new name with the
    timestamp, and it is a directory; every node that was in the old folder
    is in the new one under the same name; unless the two names are equal,
    nothing is left at or below the old path; and the folders of other names
    are as before. *)
Theorem renameFolder_moves_photos (now : Date) (w w' : world) (oldName newName : string)
    (f : Folder) :
  nodes w !! (BASE_DIR w +:+ "/" +:+ oldName) = Some Directory →
  has_char "/" oldName = false →
  renameFolder now w oldName newName = (Returns f, w') →
  name f = sanitize newName +:+ "_" +:+ getTimestamp now ∧
  path f = BASE_DIR w +:+ "/" +:+ name f ∧
  nodes w' !! path f = Some Directory ∧
  (∀ photo n,
     nodes w !! ((BASE_DIR w +:+ "/" +:+ oldName) +:+ "/" +:+ photo) = Some n →
     nodes w' !! (path f +:+ "/" +:+ photo) = Some n) ∧
  (name f ≠ oldName →
   nodes w' !! (BASE_DIR w +:+ "/" +:+ oldName) = None ∧
   ∀ photo, nodes w' !! ((BASE_DIR w +:+ "/" +:+ oldName) +:+ "/" +:+ photo) = None) ∧
  (∀ other photo,
     other ≠ oldName → other ≠ name f → has_char "/" other = false →
     nodes w' !! (BASE_DIR w +:+ "/" +:+ other) = nodes w !! (BASE_DIR w +:+ "/" +:+ other) ∧
     nodes w' !! ((BASE_DIR w +:+ "/" +:+ other) +:+ "/" +:+ photo)
       = nodes w !! ((BASE_DIR w +:+ "/" +:+ other) +:+ "/" +:+ photo)).
Proof.
  intros Hdir Hold. unfold renameFolder. cbv zeta.
  set (new := sanitize newName +:+ "_" +:+ getTimestamp now).
  set (base := BASE_DIR w).
  destruct (moveFile w (base +:+ "/" +:+ oldName) (base +:+ "/" +:+ new))
    as [[[]|] w1] eqn:Hmv; [|done].
  intros [= <- <-]. cbn [name path].
  destruct (moveFile_directory _ _ _ _ Hdir Hmv) as (Hnew & Hin & Hrest).
  assert (Hnew_slash : has_char "/" new = false).
  { unfold new. rewrite !has_char_app, sanitize_no_illegal, getTimestamp_no_char by done.
    done. }
  assert (Hbelow : ∀ a b rest, has_char "/" a = false → has_char "/" b = false →
            a ≠ b → below (base +:+ "/" +:+ a) ((base +:+ "/" +:+ b) +:+ "/" +:+ rest) = false).
  { intros a b rest Ha Hb Hab. unfold below.
    rewrite !append_assoc, startsWith_app_same.
    rewrite <- (append_assoc "/" a "/"), !append_cons, !append_nil_l. cbn.
    rewrite bool_decide_eq_true_2 by done. cbn.
    destruct (startsWith (b +:+ String "/" rest) (a +:+ "/")) eqn:Hs; [|done].
    by apply (startsWith_entry a b rest) in Hs. }
  assert (Hbelow' : ∀ a b, has_char "/" b = false →
            below (base +:+ "/" +:+ a) (base +:+ "/" +:+ b) = false).
  { intros a b Hb. unfold below.
    rewrite !append_assoc, startsWith_app_same.
    rewrite !append_cons, !append_nil_l. cbn.
    rewrite bool_decide_eq_true_2 by done. cbn. by apply startsWith_name. }
  assert (Hne : ∀ a b rest, (base +:+ "/" +:+ a) +:+ "/" +:+ rest ≠ base +:+ "/" +:+ b
                            ∨ has_char "/" b = true).
  { intros a b rest. destruct (has_char "/" b) eqn:Hb; [by right|left].
    intros Heq. rewrite append_assoc in Heq. apply (inj (String.app base)) in Heq.
    rewrite !append_cons, !append_nil_l in Heq. injection Heq as Heq.
    apply (f_equal (has_char "/")) in Heq. rewrite Hb, has_char_app in Heq. cbn in Heq.
    rewrite bool_decide_eq_true_2 in Heq by done. by rewrite orb_true_r in Heq. }
  assert (Hinj : ∀ a b, base +:+ "/" +:+ a = base +:+ "/" +:+ b → a = b).
  { intros a b Heq. by repeat apply (inj (String.app _)) in Heq. }
  split_and!; [done|done|done|done| |].
  - intros Hdiff. split.
    + rewrite Hrest.
      * by rewrite bool_decide_eq_true_2.
      * intros Heq. by apply Hinj in Heq.
      * by apply Hbelow'.
    + intros photo. rewrite Hrest.
      * unfold below at 1. rewrite <- append_assoc, startsWith_append.
        by rewrite orb_true_r.
      * destruct (Hne oldName new photo) as [H'|H']; [done|congruence].
      * by apply Hbelow.
  - intros other photo Ho1 Ho2 Hos. split.
    + rewrite Hrest.
      * rewrite bool_decide_eq_false_2 by (intros Heq; by apply Hinj in Heq).
        by rewrite Hbelow'.
      * intros Heq. by apply Hinj in Heq.
      * by apply Hbelow'.
    + rewrite Hrest.
      * rewrite Hbelow by done. rewrite bool_decide_eq_false_2; [done|].
        destruct (Hne other oldName photo) as [H'|H']; [done|congruence].
      * destruct (Hne other new photo) as [H'|H']; [done|congruence].
      * apply Hbelow; [done|done|congruence].
Qed.

Lemma renameFolder_moves_photos_witness :
  let now := mkDate 2024 0 15 10 30 5 1705314605000 in
  let w := {| nodes := {[ "/sd/DCIM/WorkPhotos" := Directory;
                          "/sd/DCIM/WorkPhotos/Old_20240101_090000" := Directory;
                          "/sd/DCIM/WorkPhotos/Old_20240101_090000/001.jpg"
                            := File "one" None ]};
              denied := ∅; ExternalStorageDirectoryPath := "/sd" |} in
  ∃ f w',
    renameFolder now w "Old_20240101_090000" "New" = (Returns f, w') ∧
    name f = "New_20240115_103005" ∧
    nodes w' !! (path f +:+ "/" +:+ "001.jpg") = Some (File "one" None) ∧
    nodes w' !! "/sd/DCIM/WorkPhotos/Old_20240101_090000/001.jpg" = None.
Proof.
  intros now w.
  destruct (renameFolder now w "Old_20240101_090000" "New") as [[f|] w'] eqn:Hrename;
    [|vm_compute in Hrename; discriminate Hrename].
  exists f, w'. split; [reflexivity|].
  destruct (renameFolder_moves_photos now w w' "Old_20240101_090000" "New" f)
    as (Hname & _ & _ & Hphotos & Hold & _);
    [vm_compute; reflexivity|reflexivity|exact Hrename|].
  split; [exact Hname|]. split.
  - apply Hphotos. vm_compute. reflexivity.
  - apply Hold. rewrite Hname. vm_compute. discriminate.
Defined.

End RenameFacts.

(** ** The cells over a session *)

Section SessionFacts.
Import SettingsStorage CameraView CameraSession.

(** [takePhoto] always returns. *)
Lemma takePhoto_total (env : Ambient) (folder : Folder) (w : world) (s : State) :
  ∃ w' s', takePhoto env folder w s = Some (w', s') ∧
    (s' = s ∨ ∃ saved, s' = after_capture saved s).
Proof.
  unfold takePhoto. destruct (camera env) as [[photo|]|]; [|by eexists _, _; eauto..].
  assert (∃ r, capture_io env folder w s photo = Some r) as [[res w2] ->].
  { unfold capture_io.
    assert (∃ filename, capture_filename env folder w s = Some filename) as [fn ->].
    { unfold capture_filename. destruct (isRoot w folder); [by eexists|].
      destruct (getUniqueFilename_cases w (path folder) (targetSeq s) (targetSub s)
                  (targetText s)) as [[_ ->]|(_ & k & _ & -> & _)]; by eexists. }
    cbn [mbind option_bind]. unfold saveFile.
    match goal with |- ∃ r, (?x ≫= _) = _ => set (loop := x) end.
    assert (∃ dest, loop = Some dest) as [dest ->].
    { subst loop. match goal with |- context [saveFile_loop _ ?w' ?f _ _ (_ +:+ "/" +:+ ?fn') _] =>
        destruct (saveFile_destination w' f fn') as (dest & Hd & _) end.
      by exists dest. }
    cbn [mbind option_bind]. destruct (moveFile _ _ _) as [[[]|] w3]; by eexists. }
  cbn [mbind option_bind]. destruct res as [saved|]; eexists _, _; split; eauto.
Qed.

Lemma Set_add_NoDup (labels : list string) (l : string) :
  NoDup labels → NoDup (Set_add labels l).
Proof.
  intros Hl. unfold Set_add. case_bool_decide; [done|].
  apply NoDup_app. split_and!; [done| |apply NoDup_singleton].
  intros x Hx Hx'%list_elem_of_singleton. by subst.
Qed.

Lemma loadFolder_labels_NoDup (folder : Folder) (w : world) (s : State) :
  NoDup (usedLabels (loadFolder folder w s)).
Proof.
  unfold loadFolder. cbv zeta.
  destruct (listPhotos w (path folder)) as [|p photos] eqn:Hphotos; [constructor|].
  cbn [usedLabels setUsedLabels].
  generalize (p :: photos). intros l.
  assert (∀ acc, NoDup acc →
    NoDup (foldl (λ labels p0,
             match NamingCodec.textLabel (parseFilename (RNFS.name p0)) with
             | Some (String _ _ as l0) => Set_add labels l0
             | _ => labels
             end) acc l)) as Hfold.
  { induction l as [|q l IH]; intros acc Hacc; [done|]. cbn [foldl]. apply IH.
    destruct (NamingCodec.textLabel _) as [[|c l0]|]; [done| |done].
    by apply Set_add_NoDup. }
  apply Hfold. constructor.
Qed.

(** The index that the inputs of the editor denote is an index: a sequence
    and a sub-sequence from 1 on. In text-group mode the sequence is the one
    of the cells. *)
Lemma read_index_bounds (s : State) (newSeq : N) (newTextLabel : string)
    (newSubSeq : option N) :
  read_index s = inr (newSeq, newTextLabel, newSubSeq) →
  (labelingMode s ≠ text_group → 1 ≤ newSeq) ∧
  (labelingMode s = text_group → newSeq = sequence s) ∧
  (∀ k, newSubSeq = Some k → 1 ≤ k).
Proof.
  unfold read_index. intros Hread.
  assert (∀ (z : Z), (z <? 1)%Z = false → 1 ≤ Z.to_N z) as Hz by (intros z Hz; lia).
  destruct (decide (labelingMode s = text_group)) as [Hmode|Hmode].
  - destruct (trim (editSequence s)); [done|].
    destruct (_ && _).
    + destruct (parseInt (editSubSequence s)) as [z|]; [|done].
      destruct (z <? 1)%Z eqn:Hlt; [done|]. simplify_eq.
      split_and!; [done|done|]. intros k [= <-]. by apply Hz.
    + simplify_eq. by split_and!.
  - destruct (parseInt (editSequence s)) as [z|]; [|done].
    destruct (z <? 1)%Z eqn:Hlt; [done|].
    destruct (_ && _).
    + destruct (parseInt (editSubSequence s)) as [z'|]; [|done].
      destruct (z' <? 1)%Z eqn:Hlt'; [done|]. simplify_eq.
      split_and!; [intros _; by apply Hz|done|]. intros k [= <-]. by apply Hz.
    + simplify_eq. split_and!; [intros _; by apply Hz|done|done].
Qed.

Lemma after_capture_wellformed (saved : string) (s : State) :
  wellformed s → wellformed (after_capture saved s).
Proof.
  intros (H1 & H2 & H3). unfold after_capture, wellformed.
  destruct (retakeTarget s); [done|].
  destruct (decide (labelingMode s ≠ single)); cbn; [|split_and!; [lia|done..]].
  destruct (bool_decide (labelingMode s = text_group)); cbn.
  - case_bool_decide; cbn; split_and!; try lia; try done.
    apply NoDup_app. split_and!; [done| |apply NoDup_singleton].
    intros x Hx Hx'%list_elem_of_singleton. by subst.
  - split_and!; [done|lia|done].
Qed.

Lemma handleIndexSave_wellformed (folder : Folder) (w : world) (s : State) :
  wellformed s → wellformed (handleIndexSave folder w s).1.
Proof.
  intros (H1 & H2 & H3). unfold handleIndexSave.
  destruct (read_index s) as [a|[[newSeq newTextLabel] newSubSeq]] eqn:Hread; [done|].
  destruct (read_index_bounds _ _ _ _ Hread) as (Hseq & Htext & Hsub).
  destruct (_ && _); [done|]. cbn [fst]. unfold commit_index, wellformed.
  assert (1 ≤ default 1 newSubSeq) as Hd.
  { destruct newSubSeq as [k|]; [by apply Hsub|done]. }
  destruct (decide (labelingMode s = text_group)) as [Hmode|Hmode].
  - rewrite decide_True by (rewrite Hmode; done).
    case_bool_decide; cbn; split_and!; try done.
    apply NoDup_app. split_and!; [done| |apply NoDup_singleton].
    intros x Hx Hx'%list_elem_of_singleton. by subst.
  - specialize (Hseq Hmode).
    destruct (decide (labelingMode s ≠ single)); cbn; by split_and!.
Qed.

Lemma session_step_wellformed (w : world) (s : State) (ev : Folder * Event) :
  wellformed s →
  ∃ w' s', session_step (w, s) ev = Some (w', s') ∧ wellformed s'.
Proof.
  intros Hs. pose proof Hs as (H1 & H2 & H3). destruct ev as [folder e].
  destruct e; cbn [session_step];
    try (eexists _, _; split; [reflexivity|]); unfold wellformed.
  - (* the folder is loaded *)
    split_and!; [by destruct (listPhotos w (path folder)) eqn:E; unfold loadFolder; rewrite E
                |by destruct (listPhotos w (path folder)) eqn:E; unfold loadFolder; rewrite E
                |apply loadFolder_labels_NoDup].
  - unfold syncSequence. destruct (isRoot w folder); [done|]. cbv zeta.
    generalize (findHighestSequence w (path folder)). intros h.
    destruct (0 <? h); cbn; split_and!; try done; lia.
  - destruct (takePhoto_total env folder w s) as (w' & s' & Htake & [->|[saved ->]]);
      exists w'; eexists; (split; [exact Htake|]); [done|].
    by apply (after_capture_wellformed saved s).
  - unfold recordingSaved. cbv zeta. destruct (decide _); cbn; split_and!; try done; lia.
  - unfold nextSequence. destruct (decide _); cbn; split_and!; try done; lia.
  - unfold cycleLabelingMode. by destruct (labelingMode s).
  - unfold retakeLast. by destruct (lastPhoto s).
  - done.
  - done.
  - unfold galleryClosed. by destruct (listPhotos w (path folder)).
  - done.
  - unfold handleLabelSave. cbv zeta. destruct (trim (newFolderName s)) as [|c l]; [done|].
    case_bool_decide as Hin; [done|]. cbn. split_and!; [done|done|].
    apply NoDup_app. split_and!; [done| |apply NoDup_singleton].
    intros x Hx Hx'%list_elem_of_singleton. by subst.
  - done.
  - unfold openIndexEditor. cbv zeta. by do 2 destruct (decide _).
  - destruct e as [text|text| |]; cbn [editor_step].
    + unfold changeEditSequence. by destruct (decide _).
    + done.
    + by apply (handleIndexSave_wellformed folder w s).
    + done.
  - done.
Qed.

(** X11. The cells stay well formed. Whatever happens to the component,
    in whatever folders and on whatever device (effects, captures, saved
    recordings, presses of the buttons, input and Set in the two dialogs,
    retakes from the gallery), every event is processed, and afterwards the
    sequence and the sub-sequence are still at least 1 and the used labels
    still hold no label twice. *)
Theorem session_keeps_cells_wellformed (events : list (Folder * Event)) (w : world) :
  ∃ w' s',
    session_run events (w, initialState) = Some (w', s') ∧
    1 ≤ sequence s' ∧ 1 ≤ subSequence s' ∧ NoDup (usedLabels s').
Proof.
  enough (∀ st, wellformed st.2 →
            ∃ w' s', session_run events st = Some (w', s') ∧ wellformed s') as Hgen.
  { apply (Hgen (w, initialState)). split_and!; [done|done|constructor]. }
  unfold session_run. induction events as [|ev events IH]; intros [w0 s0] Hs0.
  - by exists w0, s0.
  - cbn [foldl mbind option_bind].
    destruct (session_step_wellformed w0 s0 ev Hs0) as (w1 & s1 & Hstep & Hs1).
    rewrite Hstep. by apply (IH (w1, s1)).
Qed.

Lemma Set_add_keeps (labels : list string) (l x : string) :
  x ∈ labels → x ∈ Set_add labels l.
Proof.
  intros Hx. unfold Set_add. case_bool_decide; [done|].
  apply elem_of_app. by left.
Qed.

Lemma Set_add_adds (labels : list string) (l : string) : l ∈ Set_add labels l.
Proof.
  unfold Set_add. case_bool_decide; [done|].
  apply elem_of_app. right. by apply list_elem_of_singleton.
Qed.

Lemma loadFolder_labels (folder : Folder) (w : world) (s : State) (f l : string) :
  f ∈ RNFS.name <$> listPhotos w (path folder) →
  NamingCodec.textLabel (parseFilename f) = Some l →
  l ≠ "" →
  l ∈ usedLabels (loadFolder folder w s).
Proof.
  intros Hf Hl Hne. unfold loadFolder. cbv zeta.
  destruct (listPhotos w (path folder)) as [|p photos] eqn:Hphotos.
  { by apply elem_of_nil in Hf. }
  cbn [usedLabels setUsedLabels].
  revert Hf. generalize (p :: photos). intros ps Hf.
  apply list_elem_of_fmap in Hf as (q & -> & Hq).
  set (step := λ (labels : list string) (p0 : ReadDirItem),
         match NamingCodec.textLabel (parseFilename (RNFS.name p0)) with
         | Some (String _ _ as l0) => Set_add labels l0
         | _ => labels
         end).
  assert (∀ qs acc x, x ∈ acc → x ∈ foldl step acc qs) as Hkeep.
  { induction qs as [|q' qs IH]; intros acc x Hx; [done|]. cbn [foldl]. apply IH.
    unfold step.
    destruct (NamingCodec.textLabel (parseFilename (RNFS.name q'))) as [[|c l0]|];
      [done| |done].
    by apply Set_add_keeps. }
  generalize (@nil string). induction ps as [|q' ps IH]; intros acc.
  { by apply elem_of_nil in Hq. }
  cbn [foldl]. apply elem_of_cons in Hq as [<-|Hq]; [|by apply IH].
  apply Hkeep. unfold step. rewrite Hl. destruct l as [|c l]; [done|].
  apply Set_add_adds.
Qed.

(** X12. A label that a photo of the folder carries is refused by the label
    dialog. If the folder holds a [.jpg] whose name parses to the label [l],
    then once the folder is loaded [l] is among the used labels, and Set
    with an input that trims to [l] raises the alert "Duplicate Label" and
    changes no cell. *)
Theorem saved_label_is_refused (folder : Folder) (w : world) (s : State)
    (stem data : string) (mt : option Z) (l typed : string) :
  path folder ∉ denied w →
  nodes w !! path folder = Some Directory →
  has_char "/" stem = false →
  nodes w !! (path folder +:+ "/" +:+ stem +:+ ".jpg") = Some (File data mt) →
  NamingCodec.textLabel (parseFilename (stem +:+ ".jpg")) = Some l →
  l ≠ "" →
  trim typed = l →
  let s0 := setNewFolderName typed (loadFolder folder w s) in
  l ∈ usedLabels s0 ∧
  ∃ alert, handleLabelSave s0 = (s0, Some alert) ∧ title alert = "Duplicate Label".
Proof.
  intros Hden Hdir Hslash Hfile Hl Hne Htrim s0.
  assert (l ∈ usedLabels s0) as Hin.
  { change (usedLabels s0) with (usedLabels (loadFolder folder w s)).
    apply (loadFolder_labels folder w s (stem +:+ ".jpg") l); [|done|done].
    by apply (jpg_name_listed w (path folder) stem data mt). }
  split; [done|]. unfold handleLabelSave. cbv zeta.
  change (newFolderName s0) with typed. rewrite Htrim.
  destruct l as [|c l]; [done|].
  rewrite bool_decide_eq_true_2 by done. by eexists.
Qed.

Lemma saved_label_is_refused_witness :
  let folder := mkFolder "Site" "/dcim/Site" in
  let w := {| nodes := {[ "/dcim/Site" := Directory;
                          "/dcim/Site/Beam-1.jpg" := File "photo" (Some 5%Z) ]};
              denied := ∅; ExternalStorageDirectoryPath := "/dcim" |} in
  let s0 := setNewFolderName " Beam " (loadFolder folder w initialState) in
  "Beam" ∈ usedLabels s0 ∧
  ∃ alert, handleLabelSave s0 = (s0, Some alert) ∧ title alert = "Duplicate Label".
Proof.
  intros folder w.
  apply (saved_label_is_refused folder w initialState "Beam-1" "photo" (Some 5%Z)
           "Beam" " Beam ").
  - vm_compute. set_solver.
  - by vm_compute.
  - by vm_compute.
  - by vm_compute.
  - by vm_compute.
  - done.
  - by vm_compute.
Defined.

End SessionFacts.
